(** * kCSD-python: basis functions, forward-model integrands and source grid

    A shallow embedding of [KCSD3D_Helpers.py] and of the Method-of-Images
    integrand of [MoIKCSD.py].

    Numbers.  Python and NumPy floats are read as real numbers (type [R] of
    the Standard Library): rounding, overflow and the special values inf
    and nan are outside the model.  What the model keeps of the partiality
    of float arithmetic is the set of operations that have no real result:
    a division by zero, a zero raised to a negative power, a negative number
    raised to a fractional power, an out-of-range index, an empty reduction.
    Python raises on those for its own floats; NumPy scalars give inf or nan
    with a RuntimeWarning.  Both are rendered as [Raise].

    Names.  [R] and [Z] name the number types here, so the radius [R] of the
    source is written [rad] and the array [Z] of [make_src_3D] is [Zs].
    Counts of sources, float-valued integers in the source, are in [Z]. *)

From Stdlib Require Import Reals Lra Lia ZArith List Bool.
Import ListNotations.
Open Scope R_scope.

(** ** Results and errors *)

Inductive exn : Type :=
| ZeroDivisionError
| ValueError
| IndexError.

Inductive result (A : Type) : Type :=
| Ok (a : A)
| Raise (e : exn).

Arguments Ok {A} a.
Arguments Raise {A} e.

Definition bind {A B : Type} (m : result A) (k : A -> result B) : result B :=
  match m with
  | Ok a => k a
  | Raise e => Raise e
  end.

Notation "x <- m ;; k" := (bind m (fun x => k))
  (at level 61, m at next level, right associativity).

Definition rmap {A B : Type} (f : A -> B) (m : result A) : result B :=
  x <- m ;; Ok (f x).

Fixpoint mapM {A B : Type} (f : A -> result B) (l : list A) : result (list B) :=
  match l with
  | [] => Ok []
  | a :: l' => b <- f a ;; bs <- mapM f l' ;; Ok (b :: bs)
  end.

(** Inversion of a successful [bind]. *)
Ltac bind_inv H :=
  match type of H with
  | bind ?m _ = Ok _ =>
      let E := fresh "E" in
      destruct m eqn:E; cbn [bind] in H; [| discriminate H]
  end.

(** ** Float operations *)

Definition flt (x y : R) : bool := if Rlt_dec x y then true else false.
Definition fle (x y : R) : bool := if Rle_dec x y then true else false.

(** A Python bool used as a factor. *)
Definition b2R (b : bool) : R := if b then 1 else 0.

(** [x / y]. *)
Definition fdiv (x y : R) : result R :=
  if Req_dec_T y 0 then Raise ZeroDivisionError else Ok (x / y).

(** [x ** n] for an integer [n]. *)
Definition fpow_int (x : R) (n : Z) : result R :=
  if Req_dec_T x 0 then
    if (n <? 0)%Z then Raise ZeroDivisionError else Ok (powerRZ x n)
  else Ok (powerRZ x n).

(** [x ** y] for a float [y] that is not an integer ([0.5], [1./3.]); a
    negative base has no real power. *)
Definition fpow (x y : R) : result R :=
  if Rlt_dec 0 x then Ok (Rpower x y)
  else if Req_dec_T x 0 then
    if Rlt_dec 0 y then Ok 0 else Raise ZeroDivisionError
  else Raise ValueError.

(** [l[i]] for a constant index [i >= 0]. *)
Definition index (l : list R) (i : nat) : result R :=
  match nth_error l i with
  | Some v => Ok v
  | None => Raise IndexError
  end.

(** [np.ceil]: the least integer not below [x]. *)
Definition np_ceil (x : R) : Z := Zceil x.

(** [np.floor]. *)
Definition np_floor (x : R) : Z := Zfloor x.

(** [np.round]: to the nearest integer, a tie going to the even one. *)
Definition np_round (x : R) : Z :=
  let f := np_floor x in
  let d := x - IZR f in
  if Rlt_dec d (1 / 2) then f
  else if Rlt_dec (1 / 2) d then (f + 1)%Z
  else if Z.even f then f else (f + 1)%Z.

(** [np.sum] of a one-dimensional array. *)
Definition np_sum (l : list R) : R := fold_right Rplus 0 l.

(** [np.max] and [np.min] of a one-dimensional array. *)
Definition np_max (l : list R) : result R :=
  match l with
  | [] => Raise ValueError
  | a :: l' => Ok (fold_left Rmax l' a)
  end.

Definition np_min (l : list R) : result R :=
  match l with
  | [] => Raise ValueError
  | a :: l' => Ok (fold_left Rmin l' a)
  end.

(** [np.arange(n)]. *)
Definition np_arange (n : Z) : list Z := map Z.of_nat (seq 0 (Z.to_nat n)).

(** Elementwise product of two one-dimensional arrays, with NumPy's
    broadcasting of an array of length one. *)
Definition np_mul (a b : list R) : result (list R) :=
  if (length a =? length b)%nat then Ok (map (fun p => fst p * snd p) (combine a b))
  else match a, b with
       | [u], _ => Ok (map (fun v => u * v) b)
       | _, [v] => Ok (map (fun u => u * v) a)
       | _, _ => Raise ValueError
       end.

(** [np.linspace(start, stop, num)]: [num] evenly spaced samples from
    [start] to [stop], both included; a single sample is [start]. *)
Definition np_linspace (start stop : R) (num : Z) : result (list R) :=
  if (num <? 0)%Z then Raise ValueError
  else if (num <=? 1)%Z then Ok (map (fun _ => start) (np_arange num))
  else
    let step := (stop - start) / IZR (num - 1) in
    Ok (map (fun i => start + IZR i * step) (np_arange num)).

(** [np.meshgrid(lx, ly, lz)] with its default indexing: three arrays of
    shape [(len ly, len lx, len lz)]. *)
Definition array3 : Type := list (list (list R)).

Definition np_meshgrid (lx ly lz : list R) : array3 * array3 * array3 :=
  (map (fun _ => map (fun xi => map (fun _ => xi) lz) lx) ly,
   map (fun yj => map (fun _ => map (fun _ => yj) lz) lx) ly,
   map (fun _ => map (fun _ => lz) lx) ly).

Definition at3 (a : array3) (j i k : nat) : option R :=
  match nth_error a j with
  | Some row =>
      match nth_error row i with
      | Some col => nth_error col k
      | None => None
      end
  | None => None
  end.

(** The number of elements of a three-dimensional array ([a.size]). *)
Definition np_size (a : array3) : nat :=
  list_sum (map (fun row => list_sum (map (@length R) row)) a).

(** ** KCSD3D_Helpers.py *)

Definition basis3D : Type := R -> R -> R -> list R -> R -> result R.

(** The integrand of the 3D forward model; [h] is not used. *)
Definition int_pot_3D (xp yp zp x rad h : R) (basis_func : basis3D) : result R :=
  y <- fpow ((x - xp) ^ 2 + yp ^ 2 + zp ^ 2) 0.5 ;;
  let y := if flt y 0.00001 then 0.00001 else y in
  pot <- fdiv 1.0 y ;;
  b <- basis_func xp yp zp [0; 0; 0] rad ;;
  Ok (pot * b).

Definition int_pot_3D_mc (xyz : R * R * R) (x rad h : R) (basis_func : basis3D)
  : result R :=
  let '(xp, yp, zp) := xyz in
  int_pot_3D xp yp zp x rad h basis_func.

Definition gauss_rescale_3D (x y z : R) (mu : list R) (three_stdev : R)
  : result R :=
  let stdev := three_stdev / 3.0 in
  a <- fpow (2 * PI) 0.5 ;;
  h <- fdiv 1 ((a * stdev) ^ 3) ;;
  s <- fpow_int stdev (-2) ;;
  let c := 0.5 * s in
  m0 <- index mu 0 ;;
  m1 <- index mu 1 ;;
  m2 <- index mu 2 ;;
  Ok (h * exp (- c * ((x - m0) ^ 2 + (y - m1) ^ 2 + (z - m2) ^ 2))).

Definition gauss_rescale_lim_3D (x y z : R) (mu : list R) (three_stdev : R)
  : result R :=
  g <- gauss_rescale_3D x y z mu three_stdev ;;
  m0 <- index mu 0 ;;
  m1 <- index mu 1 ;;
  m2 <- index mu 2 ;;
  Ok (g * b2R (flt ((x - m0) ^ 2 + (y - m1) ^ 2 + (z - m2) ^ 2)
                   (three_stdev ^ 2))).

(** [mu] is a parameter that the body does not read. *)
Definition step_rescale_3D (xp yp zp : R) (mu : list R) (rad : R) : result R :=
  q <- fdiv 3 (4 * PI * rad ^ 3) ;;
  Ok (q * b2R (fle (xp ^ 2 + yp ^ 2 + zp ^ 2) (rad ^ 2))).

Record src_params : Type := mk_src_params {
  sp_nx : Z; sp_ny : Z; sp_nz : Z;
  sp_Lx_n : R; sp_Ly_n : R; sp_Lz_n : R;
  sp_ds : R
}.

(** The cube root is the exact one, and every division by zero is a failure.
    With NumPy scalars and [n_src = 0] the code goes on from [V/0 = inf] to
    finite values; the model does not follow it there. *)
Definition get_src_params_3D (Lx Ly Lz : R) (n_src : Z) : result src_params :=
  let V := Lx * Ly * Lz in
  V_unit <- fdiv V (IZR n_src) ;;
  L_unit <- fpow V_unit (1 / 3) ;;
  qx <- fdiv Lx L_unit ;;
  let nx := np_ceil qx in
  qy <- fdiv Ly L_unit ;;
  let ny := np_ceil qy in
  qz <- fdiv Lz L_unit ;;
  let nz := np_ceil qz in
  ds <- fdiv Lx (IZR (nx - 1)) ;;
  let Lx_n := IZR (nx - 1) * ds in
  let Ly_n := IZR (ny - 1) * ds in
  let Lz_n := IZR (nz - 1) * ds in
  Ok (mk_src_params nx ny nz Lx_n Ly_n Lz_n ds).

Record src_axes : Type := mk_src_axes {
  lin_x : list R; lin_y : list R; lin_z : list R;
  ax_ds : R
}.

(** Lines 92 to 111 of [make_src_3D]: the three coordinate sequences, and
    the spacing that [get_src_params_3D] returned. *)
Definition make_src_axes (X Y Zs : list R) (n_src : Z) (ext_x ext_y ext_z : R)
  : result src_axes :=
  max_X <- np_max X ;; min_X <- np_min X ;;
  let Lx := max_X - min_X in
  max_Y <- np_max Y ;; min_Y <- np_min Y ;;
  let Ly := max_Y - min_Y in
  max_Z <- np_max Zs ;; min_Z <- np_min Zs ;;
  let Lz := max_Z - min_Z in
  let Lx_n := Lx + 2 * ext_x in
  let Ly_n := Ly + 2 * ext_y in
  let Lz_n := Lz + 2 * ext_z in
  p <- get_src_params_3D Lx_n Ly_n Lz_n n_src ;;
  let ext_x_n := (sp_Lx_n p - Lx) / 2 in
  let ext_y_n := (sp_Ly_n p - Ly) / 2 in
  let ext_z_n := (sp_Lz_n p - Lz) / 2 in
  lx <- np_linspace (min_X - ext_x_n) (max_X + ext_x_n) (sp_nx p) ;;
  ly <- np_linspace (min_Y - ext_y_n) (max_Y + ext_y_n) (sp_ny p) ;;
  lz <- np_linspace (min_Z - ext_z_n) (max_Z + ext_z_n) (sp_nz p) ;;
  Ok (mk_src_axes lx ly lz (sp_ds p)).

Record src_grid : Type := mk_src_grid {
  X_src : array3; Y_src : array3; Z_src : array3;
  R_src : R
}.

(** [make_src_3D]: the sequences above, then lines 113 to 118. *)
Definition make_src_3D (X Y Zs : list R) (n_src : Z)
    (ext_x ext_y ext_z R_init : R) : result src_grid :=
  ax <- make_src_axes X Y Zs n_src ext_x ext_y ext_z ;;
  let '(Xg, Yg, Zg) := np_meshgrid (lin_x ax) (lin_y ax) (lin_z ax) in
  let ds := ax_ds ax in
  q <- fdiv R_init ds ;;
  let d := np_round q in
  let rad := IZR d * ds in
  Ok (mk_src_grid Xg Yg Zg rad).

Inductive basis_name : Type := step | gauss | gauss_lim.

Definition basis_types (k : basis_name) : basis3D :=
  match k with
  | step => step_rescale_3D
  | gauss => gauss_rescale_3D
  | gauss_lim => gauss_rescale_lim_3D
  end.

(** ** MoIKCSD.py *)

(** The keyword arguments read by [MoIKCSD.__init__]. *)
Record kwargs : Type := mk_kwargs {
  kw_MoI_iters : option Z;
  kw_sigma_S : option R;
  kw_sigma : option R
}.

(** [kwargs.get(key, default)]. *)
Definition get {A : Type} (o : option A) (default : A) : A :=
  match o with
  | Some v => v
  | None => default
  end.

(** The attributes that [MoIKCSD.__init__] sets before it hands over to the
    initializer of [KCSD2D], a class that is not part of these sources. *)
Record MoIKCSD : Type := mk_MoIKCSD {
  MoI_iters : Z;
  sigma_S : R;
  sigma : R;
  iters : list Z;
  iter_factor : list R
}.

(** Lines 75 to 81 of [MoIKCSD.__init__]. *)
Definition MoIKCSD_init (kw : kwargs) : result MoIKCSD :=
  let MoI_iters := get (kw_MoI_iters kw) 20%Z in
  let sigma_S := get (kw_sigma_S kw) 5.0 in
  let sigma := get (kw_sigma kw) 1.0 in
  W_TS <- fdiv (sigma - sigma_S) (sigma + sigma_S) ;;
  let iters := map (fun i => (i + 1)%Z) (np_arange MoI_iters) in
  iter_factor <- mapM (fpow_int W_TS) iters ;;
  Ok (mk_MoIKCSD MoI_iters sigma_S sigma iters iter_factor).

(** The whole of [MoIKCSD.__init__], lines 75 to 83.  The initializer of
    [KCSD2D] is not part of these sources: it is a parameter, acting on the
    object that lines 75 to 81 have filled. *)
Definition MoIKCSD_init_with (super_init : MoIKCSD -> result MoIKCSD)
    (kw : kwargs) : result MoIKCSD :=
  self <- MoIKCSD_init kw ;;
  super_init self.

Definition basis2D : Type := R -> R -> result R.

Definition int_pot_2D_moi (self : MoIKCSD) (xp yp x rad h : R)
    (basis_func : basis2D) : result R :=
  L <- fpow ((x - xp) ^ 2 + yp ^ 2) 0.5 ;;
  let L := if flt L 0.00001 then 0.00001 else L in
  n1 <- mapM (fun k => fdiv (h - (2 * h * IZR k)) L) (iters self) ;;
  n2 <- mapM (fun k => fdiv (h + (2 * h * IZR k)) L) (iters self) ;;
  let correction :=
    map (fun p => fst p + snd p) (combine (map arcsinh n1) (map arcsinh n2)) in
  w <- np_mul (iter_factor self) correction ;;
  q <- fdiv h L ;;
  let pot := arcsinh q + np_sum w in
  let dist := sqrt (xp ^ 2 + yp ^ 2) in
  b <- basis_func dist rad ;;
  Ok (pot * b).

(** ** The formulas of the specification *)

(** Sum of [f k] for [k] from 1 to [M]. *)
Fixpoint sum_1_to (M : nat) (f : nat -> R) : R :=
  match M with
  | O => 0
  | S m => sum_1_to m f + f (S m)
  end.

(** The distance of the integrand, with its floor. *)
Definition floor_dist (d : R) : R := Rmax d 0.00001.

(** The weight ratio of the Method of Images. *)
Definition weight_ratio (sigma sigma_S : R) : R :=
  (sigma - sigma_S) / (sigma + sigma_S).

(** The bracket of the Method-of-Images integrand. *)
Definition moi_series (M : nat) (W h L : R) : R :=
  arcsinh (h / L)
  + sum_1_to M (fun k =>
      W ^ k * (arcsinh ((h - 2 * h * INR k) / L)
               + arcsinh ((h + 2 * h * INR k) / L))).

(** The squared distance of the point [(x, y, z)] from the center
    [(m0, m1, m2)]. *)
Definition sqdist (x y z m0 m1 m2 : R) : R :=
  (x - m0) ^ 2 + (y - m1) ^ 2 + (z - m2) ^ 2.

(** The isotropic Gaussian density of standard deviation [s], at squared
    distance [d2] from its center. *)
Definition gauss_density (s d2 : R) : R :=
  (1 / (sqrt (2 * PI) * s)) ^ 3 * exp (- d2 / (2 * s ^ 2)).

(** The uniform density over the ball of radius [rad]. *)
Definition ball_density (rad : R) : R := 3 / (4 * PI * rad ^ 3).

(** Every pair of consecutive source coordinates, along each of the three
    axes of the grid, is [ds] apart. *)
Definition grid_spacing (g : src_grid) (ds : R) : Prop :=
  forall (j i k : nat) (a b : R),
    (at3 (X_src g) j i k = Some a -> at3 (X_src g) j (S i) k = Some b ->
     b - a = ds)
    /\ (at3 (Y_src g) j i k = Some a -> at3 (Y_src g) (S j) i k = Some b ->
        b - a = ds)
    /\ (at3 (Z_src g) j i k = Some a -> at3 (Z_src g) j i (S k) = Some b ->
        b - a = ds).

(** ** Worked inputs *)

(** An estimator with two image terms and the default conductivities. *)
Definition kw2 : kwargs := mk_kwargs (Some 2%Z) None None.

Definition self2 : MoIKCSD :=
  let W := (1.0 - 5.0) / (1.0 + 5.0) in
  mk_MoIKCSD 2 5.0 1.0 [1%Z; 2%Z] [powerRZ W 1; powerRZ W 2].

(** Electrodes at the corners of the box 2 x 3 x 1, six sources asked. *)
Definition ex_X : list R := [0; 2].
Definition ex_Y : list R := [0; 3].
Definition ex_Z : list R := [0; 1].

Definition ex_grid (rad : R) : src_grid :=
  mk_src_grid
    [[[0]; [2]]; [[0]; [2]]; [[0]; [2]]]
    [[[-1 / 2]; [-1 / 2]]; [[3 / 2]; [3 / 2]]; [[7 / 2]; [7 / 2]]]
    [[[1 / 2]; [1 / 2]]; [[1 / 2]; [1 / 2]]; [[1 / 2]; [1 / 2]]]
    rad.

(** ** Float operations: basic facts *)

Create HintDb kcsd.

Lemma fdiv_ok (x y : R) : y <> 0 -> fdiv x y = Ok (x / y).
Proof.
  intros Hy. unfold fdiv. destruct (Req_dec_T y 0); [contradiction | reflexivity].
Qed.

Lemma fdiv_zero (x : R) : fdiv x 0 = Raise ZeroDivisionError.
Proof.
  unfold fdiv. destruct (Req_dec_T 0 0) as [_ | H]; [reflexivity | now elim H].
Qed.

Lemma fdiv_inv (x y v : R) : fdiv x y = Ok v -> y <> 0 /\ v = x / y.
Proof.
  unfold fdiv. destruct (Req_dec_T y 0); intros H; inversion H. now split.
Qed.

Lemma fpow_pos (x y : R) : 0 < x -> fpow x y = Ok (Rpower x y).
Proof.
  intros Hx. unfold fpow. destruct (Rlt_dec 0 x); [reflexivity | contradiction].
Qed.

Lemma fpow_sqrt (x : R) : 0 <= x -> fpow x 0.5 = Ok (sqrt x).
Proof.
  intros Hx. unfold fpow.
  destruct (Rlt_dec 0 x) as [Hp | Hn].
  - replace 0.5 with (/ 2) by lra. now rewrite Rpower_sqrt.
  - destruct (Req_dec_T x 0) as [-> | Hz]; [| lra].
    destruct (Rlt_dec 0 0.5); [| lra]. now rewrite sqrt_0.
Qed.

Lemma fpow_int_ok (x : R) (n : Z) : x <> 0 -> fpow_int x n = Ok (powerRZ x n).
Proof.
  intros Hx. unfold fpow_int. destruct (Req_dec_T x 0); [contradiction | reflexivity].
Qed.

Lemma fpow_int_nonneg (x : R) (n : Z) :
  (0 <= n)%Z -> fpow_int x n = Ok (powerRZ x n).
Proof.
  intros Hn. unfold fpow_int. destruct (Req_dec_T x 0); [| reflexivity].
  destruct (Z.ltb_spec n 0); [lia | reflexivity].
Qed.


Lemma flt_false (x y : R) : y <= x -> flt x y = false.
Proof. intros H. unfold flt. destruct (Rlt_dec x y); [lra | reflexivity]. Qed.

Lemma fle_true (x y : R) : x <= y -> fle x y = true.
Proof. intros H. unfold fle. destruct (Rle_dec x y); [reflexivity | contradiction]. Qed.

Lemma fle_false (x y : R) : y < x -> fle x y = false.
Proof. intros H. unfold fle. destruct (Rle_dec x y); [lra | reflexivity]. Qed.

(** The clamp of both integrands is the maximum with the floor. *)
Lemma clamp_floor (d : R) :
  (if flt d 0.00001 then 0.00001 else d) = floor_dist d.
Proof.
  unfold floor_dist, flt. destruct (Rlt_dec d 0.00001).
  - now rewrite Rmax_right by lra.
  - now rewrite Rmax_left by lra.
Qed.

Lemma floor_dist_ge (d : R) : 0.00001 <= floor_dist d.
Proof. apply Rmax_r. Qed.

Lemma floor_dist_neq (d : R) : floor_dist d <> 0.
Proof. pose proof (floor_dist_ge d). lra. Qed.

#[local] Hint Resolve floor_dist_neq floor_dist_ge : kcsd.


(** ** Basis functions *)

Section Basis.
Variables x y z m0 m1 m2 : R.

Let d2 := sqdist x y z m0 m1 m2.

Lemma gauss_value (three_stdev : R) :
  three_stdev <> 0 ->
  gauss_rescale_3D x y z [m0; m1; m2] three_stdev
  = Ok (gauss_density (three_stdev / 3) d2).
Proof.
  intros Hr. unfold gauss_rescale_3D.
  assert (Hpi : 0 < 2 * PI) by (pose proof PI_RGT_0; lra).
  rewrite fpow_sqrt by lra. cbn [bind].
  assert (Hs : 0 < sqrt (2 * PI)) by now apply sqrt_lt_R0.
  assert (Hsd : three_stdev / 3.0 <> 0) by (intros E; apply Hr; lra).
  rewrite fdiv_ok by (apply pow_nonzero; apply Rmult_integral_contrapositive_currified; lra).
  cbn [bind]. rewrite fpow_int_ok by assumption. cbn [bind index nth_error].
  f_equal. unfold gauss_density, d2, sqdist.
  replace (three_stdev / 3.0) with (three_stdev / 3) in * by lra.
  change (-2)%Z with (- Z.of_nat 2)%Z.
  rewrite powerRZ_neg', <- pow_powerRZ.
  f_equal.
  - field. split; lra.
  - apply f_equal. replace 0.5 with (1 / 2) by lra. field. lra.
Qed.

Lemma gauss_density_pos (s : R) : 0 < s -> 0 < gauss_density s d2.
Proof.
  intros Hs. unfold gauss_density.
  assert (Hq : 0 < sqrt (2 * PI))
    by (apply sqrt_lt_R0; pose proof PI_RGT_0; lra).
  apply Rmult_lt_0_compat; [| apply exp_pos].
  apply pow_lt. apply Rdiv_lt_0_compat; [lra |].
  now apply Rmult_lt_0_compat.
Qed.

Lemma gauss_lim_value (three_stdev : R) :
  three_stdev <> 0 ->
  gauss_rescale_lim_3D x y z [m0; m1; m2] three_stdev
  = Ok (gauss_density (three_stdev / 3) d2 * b2R (flt d2 (three_stdev ^ 2))).
Proof.
  intros Hr. unfold gauss_rescale_lim_3D.
  rewrite gauss_value by assumption. reflexivity.
Qed.

(** What the code computes: the ball is centred at the origin, whatever
    [mu] is. *)
Lemma step_value (mu : list R) (rad : R) :
  rad <> 0 ->
  step_rescale_3D x y z mu rad
  = Ok (ball_density rad * b2R (fle (x ^ 2 + y ^ 2 + z ^ 2) (rad ^ 2))).
Proof.
  intros Hr. unfold step_rescale_3D.
  rewrite fdiv_ok; [reflexivity |].
  pose proof PI_RGT_0.
  apply Rmult_integral_contrapositive_currified; [lra |].
  now apply pow_nonzero.
Qed.
End Basis.

Lemma ball_density_pos (rad : R) : 0 < rad -> 0 < ball_density rad.
Proof.
  intros Hr. unfold ball_density. pose proof PI_RGT_0.
  apply Rdiv_lt_0_compat; [lra |].
  apply Rmult_lt_0_compat; [lra | now apply pow_lt].
Qed.

(** With the center at the origin the step basis is the uniform density of
    the ball, boundary included. *)
Lemma step_centered (xp yp zp rad : R) :
  0 < rad ->
  (sqdist xp yp zp 0 0 0 <= rad ^ 2 ->
   step_rescale_3D xp yp zp [0; 0; 0] rad = Ok (ball_density rad))
  /\ (rad ^ 2 < sqdist xp yp zp 0 0 0 ->
      step_rescale_3D xp yp zp [0; 0; 0] rad = Ok 0).
Proof.
  intros Hr. unfold sqdist. rewrite step_value by lra.
  split; intros H.
  - rewrite fle_true by lra. cbn [b2R]. f_equal. lra.
  - rewrite fle_false by lra. cbn [b2R]. f_equal. lra.
Qed.

(** C7: for every point, center and extent parameter [R > 0],
    [gauss_rescale_3D] returns the isotropic Gaussian density of standard
    deviation [R/3] at the squared distance of the point from the center,
    and that value is positive. *)
Theorem gauss_rescale_3D_density (x y z m0 m1 m2 three_stdev : R) :
  0 < three_stdev ->
  gauss_rescale_3D x y z [m0; m1; m2] three_stdev
  = Ok ((1 / (sqrt (2 * PI) * (three_stdev / 3))) ^ 3
        * exp (- ((x - m0) ^ 2 + (y - m1) ^ 2 + (z - m2) ^ 2)
               / (2 * (three_stdev / 3) ^ 2)))
  /\ 0 < (1 / (sqrt (2 * PI) * (three_stdev / 3))) ^ 3
         * exp (- ((x - m0) ^ 2 + (y - m1) ^ 2 + (z - m2) ^ 2)
                / (2 * (three_stdev / 3) ^ 2)).
Proof.
  intros Hr. split.
  - rewrite gauss_value by lra. reflexivity.
  - apply (gauss_density_pos x y z m0 m1 m2 (three_stdev / 3)). lra.
Qed.

Lemma gauss_rescale_3D_density_witness :
  0 < 3
  /\ gauss_rescale_3D 1 2 3 [0; 0; 0] 3
     = Ok ((1 / (sqrt (2 * PI) * (3 / 3))) ^ 3
           * exp (- ((1 - 0) ^ 2 + (2 - 0) ^ 2 + (3 - 0) ^ 2)
                  / (2 * (3 / 3) ^ 2))).
Proof.
  split; [lra |].
  apply (gauss_rescale_3D_density 1 2 3 0 0 0 3). lra.
Defined.





(** C6: [step_rescale_3D] never reads [mu].  At the point (1, 0, 0) with
    center (1, 0, 0) and radius 1/2 the point is the center of the ball,
    the uniform density there is not zero, and the code returns 0. *)
Theorem step_rescale_3D_ignores_mu :
  sqdist 1 0 0 1 0 0 <= (1 / 2) ^ 2
  /\ ball_density (1 / 2) <> 0
  /\ step_rescale_3D 1 0 0 [1; 0; 0] (1 / 2) = Ok 0.
Proof.
  split; [unfold sqdist; lra |]. split.
  - pose proof (ball_density_pos (1 / 2)). lra.
  - rewrite step_value by lra. rewrite fle_false by lra.
    cbn [b2R]. f_equal. lra.
Qed.

(** C9: on the sphere of radius [R] around a center other than the origin
    the step basis does not include the point.  The point (1, 0, 0) is at
    distance exactly 1/2 from the center (1/2, 0, 0); [gauss_rescale_lim_3D]
    returns 0 there, and so does [step_rescale_3D], for which the claim
    announces the density of the ball. *)
Theorem step_boundary_off_center :
  sqdist 1 0 0 (1 / 2) 0 0 = (1 / 2) ^ 2
  /\ gauss_rescale_lim_3D 1 0 0 [1 / 2; 0; 0] (1 / 2) = Ok 0
  /\ step_rescale_3D 1 0 0 [1 / 2; 0; 0] (1 / 2) = Ok 0
  /\ ball_density (1 / 2) <> 0.
Proof.
  split; [unfold sqdist; lra |]. split; [| split].
  - rewrite gauss_lim_value by lra.
    rewrite flt_false by (unfold sqdist; lra). cbn [b2R]. f_equal. lra.
  - rewrite step_value by lra. rewrite fle_false by lra.
    cbn [b2R]. f_equal. lra.
  - pose proof (ball_density_pos (1 / 2)). lra.
Qed.

(** ** Arrays *)

Lemma mapM_ok {A B : Type} (f : A -> result B) (g : A -> B) (l : list A) :
  (forall a, In a l -> f a = Ok (g a)) -> mapM f l = Ok (map g l).
Proof.
  induction l as [| a l IH]; intros H; [reflexivity |].
  cbn [mapM map]. rewrite (H a) by now left. cbn [bind].
  rewrite IH by (intros b Hb; apply H; now right). reflexivity.
Qed.

Lemma combine_map_same {A B C : Type} (f : A -> B) (g : A -> C) (l : list A) :
  combine (map f l) (map g l) = map (fun a => (f a, g a)) l.
Proof.
  induction l as [| a l IH]; [reflexivity |].
  cbn [map combine]. now rewrite IH.
Qed.

Lemma np_mul_same_length (a b : list R) :
  length a = length b ->
  np_mul a b = Ok (map (fun p => fst p * snd p) (combine a b)).
Proof.
  intros H. unfold np_mul. now rewrite H, Nat.eqb_refl.
Qed.

Lemma np_sum_app (l1 l2 : list R) : np_sum (l1 ++ l2) = np_sum l1 + np_sum l2.
Proof.
  unfold np_sum. induction l1 as [| a l1 IH]; cbn [app fold_right]; [lra |].
  rewrite IH. lra.
Qed.

Lemma np_sum_seq (G : Z -> R) (n : nat) :
  np_sum (map G (map Z.of_nat (seq 1 n)))
  = sum_1_to n (fun k => G (Z.of_nat k)).
Proof.
  induction n as [| n IH]; [reflexivity |].
  rewrite seq_S, !map_app, np_sum_app, IH.
  cbn [sum_1_to map np_sum fold_right Nat.add]. lra.
Qed.

Lemma sum_1_to_ext (f g : nat -> R) (n : nat) :
  (forall k, (1 <= k <= n)%nat -> f k = g k) -> sum_1_to n f = sum_1_to n g.
Proof.
  induction n as [| n IH]; intros H; [reflexivity |].
  cbn [sum_1_to]. rewrite IH by (intros k Hk; apply H; lia).
  rewrite (H (S n)) by lia. reflexivity.
Qed.

Lemma arange_succ (n : Z) :
  map (fun i => (i + 1)%Z) (np_arange n) = map Z.of_nat (seq 1 (Z.to_nat n)).
Proof.
  unfold np_arange. rewrite <- seq_shift, !map_map.
  apply map_ext. intros a. lia.
Qed.

(** ** The Method-of-Images integrand *)

Section MoI.
Variable kw : kwargs.
Variable self : MoIKCSD.
Hypothesis Hinit : MoIKCSD_init kw = Ok self.

Let M := Z.to_nat (get (kw_MoI_iters kw) 20%Z).
Let W := weight_ratio (get (kw_sigma kw) 1) (get (kw_sigma_S kw) 5).

Lemma init_fields :
  MoI_iters self = get (kw_MoI_iters kw) 20%Z
  /\ iters self = map Z.of_nat (seq 1 M)
  /\ iter_factor self = map (powerRZ W) (iters self).
Proof.
  revert Hinit. unfold MoIKCSD_init.
  destruct (fdiv _ _) as [w | e] eqn:Hw; cbn [bind]; [| discriminate].
  apply fdiv_inv in Hw. destruct Hw as [_ ->].
  rewrite arange_succ.
  match goal with
  | |- context [mapM (fpow_int ?w) _] => rewrite (mapM_ok _ (powerRZ w))
  end.
  - cbn [bind]. intros H. inversion H; subst; clear H. cbn.
    repeat split. unfold W, weight_ratio.
    replace 1.0 with 1 by lra. replace 5.0 with 5 by lra. reflexivity.
  - intros a Ha. apply fpow_int_nonneg.
    apply in_map_iff in Ha. destruct Ha as [k [<- _]]. lia.
Qed.

Variables xp yp x rad h : R.
Variable basis_func : basis2D.

Let L := floor_dist (sqrt ((x - xp) ^ 2 + yp ^ 2)).

Lemma int_pot_2D_moi_value :
  int_pot_2D_moi self xp yp x rad h basis_func
  = rmap (fun b => moi_series M W h L * b)
         (basis_func (sqrt (xp ^ 2 + yp ^ 2)) rad).
Proof.
  destruct init_fields as [_ [Hit Hfac]].
  unfold int_pot_2D_moi.
  rewrite fpow_sqrt
    by (pose proof (pow2_ge_0 (x - xp)); pose proof (pow2_ge_0 yp); lra).
  cbn [bind]. rewrite clamp_floor. fold L.
  assert (HL : L <> 0) by (unfold L; auto with kcsd).
  rewrite (mapM_ok _ (fun k => (h - 2 * h * IZR k) / L))
    by (intros; now apply fdiv_ok).
  cbn [bind].
  rewrite (mapM_ok _ (fun k => (h + 2 * h * IZR k) / L))
    by (intros; now apply fdiv_ok).
  cbn [bind]. rewrite Hfac, !map_map, combine_map_same, map_map.
  rewrite np_mul_same_length by now rewrite !length_map.
  cbn [bind]. rewrite combine_map_same, map_map. cbn [fst snd].
  rewrite fdiv_ok by assumption. cbn [bind]. unfold rmap.
  destruct (basis_func _ _) as [b | e]; cbn [bind]; [| reflexivity].
  f_equal. f_equal. unfold moi_series. f_equal.
  rewrite Hit, np_sum_seq. apply sum_1_to_ext. intros k _.
  rewrite <- pow_powerRZ, <- INR_IZR_INZ. reflexivity.
Qed.
End MoI.

Lemma int_pot_3D_value (xp yp zp x rad h : R) (basis_func : basis3D) :
  int_pot_3D xp yp zp x rad h basis_func
  = rmap (fun b =>
            1 / floor_dist (sqrt ((x - xp) ^ 2 + yp ^ 2 + zp ^ 2)) * b)
         (basis_func xp yp zp [0; 0; 0] rad).
Proof.
  unfold int_pot_3D.
  rewrite fpow_sqrt
    by (pose proof (pow2_ge_0 (x - xp)); pose proof (pow2_ge_0 yp);
        pose proof (pow2_ge_0 zp); lra).
  cbn [bind]. rewrite clamp_floor.
  rewrite fdiv_ok by auto with kcsd. cbn [bind].
  replace 1.0 with 1 by lra. reflexivity.
Qed.



(** The initializer returns whenever the two conductivities do not cancel. *)
Lemma MoIKCSD_init_returns (kw : kwargs) :
  get (kw_sigma kw) 1 + get (kw_sigma_S kw) 5 <> 0 ->
  exists self, MoIKCSD_init kw = Ok self.
Proof.
  intros H. unfold MoIKCSD_init.
  rewrite fdiv_ok
    by (replace 1.0 with 1 by lra; replace 5.0 with 5 by lra; exact H).
  cbn [bind]. rewrite arange_succ.
  match goal with
  | |- context [mapM (fpow_int ?w) _] => rewrite (mapM_ok _ (powerRZ w))
  end.
  - cbn [bind]. eexists. reflexivity.
  - intros a Ha. apply fpow_int_nonneg.
    apply in_map_iff in Ha. destruct Ha as [k [<- _]]. lia.
Qed.

(** C1: for an estimator built by [MoIKCSD.__init__], [int_pot_2D_moi]
    returns the base term [asinh(h/L)] plus the sum over [k = 1..M] of
    [W^k * (asinh((h - 2hk)/L) + asinh((h + 2hk)/L))], times the value of the
    basis function at [(sqrt(xp^2 + yp^2), R)], with [M] the configured
    [MoI_iters] (20 by default), [W] the weight ratio of the configured
    conductivities, whose powers are stored at construction, and [L] the
    lateral distance with its floor of 1e-5. *)
Theorem int_pot_2D_moi_series (kw : kwargs) (self : MoIKCSD)
    (xp yp x rad h : R) (basis_func : basis2D) :
  MoIKCSD_init kw = Ok self ->
  let M := Z.to_nat (get (kw_MoI_iters kw) 20%Z) in
  let sigma := get (kw_sigma kw) 1 in
  let sigma_S := get (kw_sigma_S kw) 5 in
  let W := (sigma - sigma_S) / (sigma + sigma_S) in
  let L := Rmax (sqrt ((x - xp) ^ 2 + yp ^ 2)) 0.00001 in
  iter_factor self = map (fun k => W ^ k) (seq 1 M)
  /\ int_pot_2D_moi self xp yp x rad h basis_func
     = rmap (fun b =>
               (arcsinh (h / L)
                + sum_1_to M (fun k =>
                    W ^ k * (arcsinh ((h - 2 * h * INR k) / L)
                             + arcsinh ((h + 2 * h * INR k) / L)))) * b)
            (basis_func (sqrt (xp ^ 2 + yp ^ 2)) rad).
Proof.
  intros Hinit M sg sgS W L. split.
  - destruct (init_fields kw self Hinit) as [_ [Hit ->]].
    rewrite Hit, map_map. apply map_ext. intros k.
    now rewrite <- pow_powerRZ.
  - apply (int_pot_2D_moi_value kw self Hinit).
Qed.

Lemma init_kw2 : MoIKCSD_init kw2 = Ok self2.
Proof.
  unfold MoIKCSD_init, kw2, self2. cbn [get kw_MoI_iters kw_sigma kw_sigma_S].
  rewrite fdiv_ok by lra. cbn [bind].
  change (np_arange 2) with [0%Z; 1%Z]. cbn [map mapM Z.add Pos.add].
  rewrite !fpow_int_nonneg by lia. reflexivity.
Qed.

Lemma int_pot_2D_moi_series_witness :
  MoIKCSD_init kw2 = Ok self2
  /\ int_pot_2D_moi self2 0 0 1 1 1 (fun _ _ => Ok 1)
     = Ok ((arcsinh (1 / Rmax (sqrt ((1 - 0) ^ 2 + 0 ^ 2)) 0.00001)
            + sum_1_to 2 (fun k =>
                ((1 - 5) / (1 + 5)) ^ k
                * (arcsinh ((1 - 2 * 1 * INR k)
                            / Rmax (sqrt ((1 - 0) ^ 2 + 0 ^ 2)) 0.00001)
                   + arcsinh ((1 + 2 * 1 * INR k)
                              / Rmax (sqrt ((1 - 0) ^ 2 + 0 ^ 2)) 0.00001))))
           * 1).
Proof.
  split; [exact init_kw2 |].
  exact (proj2 (int_pot_2D_moi_series kw2 self2 0 0 1 1 1
                  (fun _ _ => Ok 1) init_kw2)).
Defined.



(** ** Rounding *)

Lemma Rabs_le_inv (a b : R) : Rabs a <= b -> - b <= a <= b.
Proof. unfold Rabs. destruct (Rcase_abs a); lra. Qed.

Lemma np_ceil_eq (n : Z) (x : R) : IZR n - 1 < x <= IZR n -> np_ceil x = n.
Proof. apply Zceil_eq. Qed.

Lemma np_ceil_pos (x : R) : 0 < x -> (1 <= np_ceil x)%Z.
Proof.
  intros Hx. pose proof (Zceil_bound x) as [_ Hu]. unfold np_ceil.
  assert (H : 0 < IZR (Zceil x)) by lra.
  apply lt_IZR in H. lia.
Qed.

Lemma np_round_half (x : R) : Rabs (IZR (np_round x) - x) <= 1 / 2.
Proof.
  unfold np_round, np_floor.
  pose proof (Zfloor_bound x) as [Hl Hu].
  destruct (Rlt_dec _ _) as [H1 | H1].
  - apply Rabs_le. lra.
  - destruct (Rlt_dec _ _) as [H2 | H2].
    + rewrite plus_IZR. apply Rabs_le. lra.
    + destruct (Z.even _); [| rewrite plus_IZR]; apply Rabs_le; lra.
Qed.

(** No integer is nearer to [x] than [np_round x]. *)
Lemma np_round_nearest (x : R) (k : Z) :
  Rabs (IZR (np_round x) - x) <= Rabs (IZR k - x).
Proof.
  pose proof (np_round_half x) as Hr.
  destruct (Z.eq_dec k (np_round x)) as [-> | Hk]; [lra |].
  apply Rabs_le_inv in Hr.
  assert (Hd : (k <= np_round x - 1 \/ np_round x + 1 <= k)%Z) by lia.
  destruct Hd as [Hd | Hd]; apply IZR_le in Hd.
  - rewrite minus_IZR in Hd. rewrite (Rabs_left1 (IZR k - x)) by lra.
    apply Rabs_le. lra.
  - rewrite plus_IZR in Hd. rewrite (Rabs_right (IZR k - x)) by lra.
    apply Rabs_le. lra.
Qed.

Lemma np_round_small (x : R) : 0 <= x < 1 / 2 -> np_round x = 0%Z.
Proof.
  intros Hx. unfold np_round, np_floor.
  rewrite (Zfloor_eq 0 x) by lra.
  destruct (Rlt_dec _ _) as [_ | H]; [reflexivity | lra].
Qed.

Lemma Rpower_one (y : R) : Rpower 1 y = 1.
Proof. unfold Rpower. now rewrite ln_1, Rmult_0_r, exp_0. Qed.

(** ** The source grid *)

Lemma get_src_params_3D_inv (Lx Ly Lz : R) (n_src : Z) (p : src_params) :
  get_src_params_3D Lx Ly Lz n_src = Ok p ->
  IZR (sp_nx p - 1) <> 0
  /\ sp_ds p = Lx / IZR (sp_nx p - 1)
  /\ sp_Lx_n p = IZR (sp_nx p - 1) * sp_ds p
  /\ sp_Ly_n p = IZR (sp_ny p - 1) * sp_ds p
  /\ sp_Lz_n p = IZR (sp_nz p - 1) * sp_ds p.
Proof.
  unfold get_src_params_3D. intros H.
  do 5 bind_inv H. bind_inv H.
  inversion H; subst; clear H. cbn.
  match goal with E : fdiv Lx (IZR _) = Ok _ |- _ => apply fdiv_inv in E; destruct E as [Hn ->] end.
  repeat split; trivial.
Qed.

(** The value of [get_src_params_3D] in terms of the unit length. *)
Lemma get_src_params_3D_value (Lx Ly Lz : R) (n_src : Z) :
  n_src <> 0%Z ->
  0 < Lx * Ly * Lz / IZR n_src ->
  let L_unit := Rpower (Lx * Ly * Lz / IZR n_src) (1 / 3) in
  let nx := np_ceil (Lx / L_unit) in
  let ny := np_ceil (Ly / L_unit) in
  let nz := np_ceil (Lz / L_unit) in
  get_src_params_3D Lx Ly Lz n_src
  = (ds <- fdiv Lx (IZR (nx - 1)) ;;
     Ok (mk_src_params nx ny nz (IZR (nx - 1) * ds) (IZR (ny - 1) * ds)
           (IZR (nz - 1) * ds) ds)).
Proof.
  intros Hn HV L_unit nx ny nz. unfold get_src_params_3D.
  rewrite fdiv_ok by (now apply not_0_IZR). cbn [bind].
  rewrite fpow_pos by assumption. cbn [bind]. fold L_unit.
  assert (HL : L_unit <> 0)
    by (unfold L_unit, Rpower; pose proof (exp_pos (1 / 3 * ln (Lx * Ly * Lz / IZR n_src))); lra).
  rewrite !fdiv_ok by assumption. cbn [bind]. reflexivity.
Qed.

(** For positive extents and a positive count every axis gets at least one
    source. *)
Lemma get_src_params_3D_counts (Lx Ly Lz : R) (n_src : Z) (p : src_params) :
  0 < Lx -> 0 < Ly -> 0 < Lz -> (1 <= n_src)%Z ->
  get_src_params_3D Lx Ly Lz n_src = Ok p ->
  (1 <= sp_nx p)%Z /\ (1 <= sp_ny p)%Z /\ (1 <= sp_nz p)%Z.
Proof.
  intros Hx Hy Hz Hn.
  assert (HnR : 0 < IZR n_src) by (apply IZR_lt; lia).
  assert (HV : 0 < Lx * Ly * Lz / IZR n_src).
  { apply Rdiv_lt_0_compat; [| assumption].
    repeat apply Rmult_lt_0_compat; assumption. }
  rewrite get_src_params_3D_value by (assumption || lia).
  intros H. bind_inv H. inversion H; subst; clear H. cbn.
  assert (HL : 0 < Rpower (Lx * Ly * Lz / IZR n_src) (1 / 3))
    by (unfold Rpower; apply exp_pos).
  repeat split; apply np_ceil_pos; now apply Rdiv_lt_0_compat.
Qed.

(** A run that returns never has a zero spacing. *)
Lemma get_src_params_3D_ds_neq (Lx Ly Lz : R) (n_src : Z) (p : src_params) :
  get_src_params_3D Lx Ly Lz n_src = Ok p -> sp_ds p <> 0.
Proof.
  intros Hp.
  destruct (get_src_params_3D_inv _ _ _ _ _ Hp) as (Hd & -> & _).
  revert Hp. unfold get_src_params_3D. intros H.
  bind_inv H. rename a into V_unit. rename E into EV.
  bind_inv H. rename a into L_unit. rename E into EL.
  bind_inv H. rename E into Eq.
  apply fdiv_inv in Eq. destruct Eq as [HL _].
  apply fdiv_inv in EV. destruct EV as [_ ->].
  assert (Hx : Lx <> 0).
  { intros ->. revert EL. unfold fpow.
    replace (0 * Ly * Lz / IZR n_src) with 0 by (unfold Rdiv; ring).
    destruct (Rlt_dec 0 0); [lra |].
    destruct (Req_dec_T 0 0); [| congruence].
    destruct (Rlt_dec 0 (1 / 3)); [| lra].
    intros E. inversion E. congruence. }
  apply Rmult_integral_contrapositive_currified; [exact Hx |].
  now apply Rinv_neq_0_compat.
Qed.

(** With positive extents and a positive count, a run that returns has at
    least two sources along x and a positive spacing. *)
Lemma get_src_params_3D_ds_pos (Lx Ly Lz : R) (n_src : Z) (p : src_params) :
  0 < Lx -> 0 < Ly -> 0 < Lz -> (1 <= n_src)%Z ->
  get_src_params_3D Lx Ly Lz n_src = Ok p ->
  (2 <= sp_nx p)%Z /\ 0 < sp_ds p.
Proof.
  intros Hx Hy Hz Hn Hp.
  destruct (get_src_params_3D_counts _ _ _ _ _ Hx Hy Hz Hn Hp) as (H1 & _ & _).
  destruct (get_src_params_3D_inv _ _ _ _ _ Hp) as (Hd & -> & _).
  assert (H2 : (2 <= sp_nx p)%Z).
  { destruct (Z.eq_dec (sp_nx p) 1) as [E | E]; [| lia].
    exfalso. apply Hd. rewrite E. reflexivity. }
  split; [exact H2 |].
  apply Rdiv_lt_0_compat; [assumption |]. apply IZR_lt. lia.
Qed.

Lemma arange_nth (n : Z) (i : nat) (v : Z) :
  nth_error (np_arange n) i = Some v -> v = Z.of_nat i.
Proof.
  unfold np_arange. rewrite nth_error_map, nth_error_seq.
  destruct (i <? Z.to_nat n)%nat; cbn; intros H; inversion H. reflexivity.
Qed.

(** Consecutive samples of [np.linspace] over an interval of length
    [(num - 1) * ds] are [ds] apart. *)
Lemma np_linspace_step (start stop ds : R) (num : Z) (l : list R) :
  np_linspace start stop num = Ok l ->
  stop - start = IZR (num - 1) * ds ->
  forall (i : nat) (u v : R),
    nth_error l i = Some u -> nth_error l (S i) = Some v -> v - u = ds.
Proof.
  unfold np_linspace. intros H Hlen i u v Hu Hv.
  destruct (Z.ltb_spec num 0) as [Hneg | Hnn]; [discriminate |].
  destruct (Z.leb_spec num 1) as [Hle | Hgt].
  - exfalso. inversion H; subst; clear H.
    assert (Hs : (S i < length (map (fun _ : Z => start) (np_arange num)))%nat)
      by (apply nth_error_Some; congruence).
    unfold np_arange in Hs. rewrite !length_map, length_seq in Hs. lia.
  - inversion H; subst; clear H.
    rewrite nth_error_map in Hu, Hv.
    destruct (nth_error (np_arange num) i) as [a |] eqn:Ea; [| discriminate].
    destruct (nth_error (np_arange num) (S i)) as [b |] eqn:Eb; [| discriminate].
    apply arange_nth in Ea, Eb. subst a b. cbn [option_map] in Hu, Hv.
    inversion Hu; inversion Hv; subst; clear Hu Hv.
    assert (Hd : IZR (num - 1) <> 0) by (apply not_0_IZR; lia).
    change (Z.pos (Pos.of_succ_nat i)) with (Z.of_nat (S i)).
    rewrite Hlen, Nat2Z.inj_succ, succ_IZR. field. exact Hd.
Qed.

(** The first sample is [start] and the last one is [stop]. *)
Lemma np_linspace_ends (start stop : R) (num : Z) (l : list R) :
  (2 <= num)%Z ->
  np_linspace start stop num = Ok l ->
  nth_error l 0 = Some start
  /\ nth_error l (Z.to_nat (num - 1)) = Some stop.
Proof.
  unfold np_linspace. intros Hn H.
  destruct (Z.ltb_spec num 0); [lia |].
  destruct (Z.leb_spec num 1); [lia |].
  inversion H; subst; clear H. unfold np_arange.
  rewrite !nth_error_map, !nth_error_seq.
  destruct (Nat.ltb_spec 0 (Z.to_nat num)); [| lia].
  destruct (Nat.ltb_spec (Z.to_nat (num - 1)) (Z.to_nat num)); [| lia].
  cbn [option_map Nat.add Z.of_nat]. split; f_equal.
  - lra.
  - rewrite Z2Nat.id by lia. field. apply not_0_IZR. lia.
Qed.

Section Mesh.
Variables lx ly lz : list R.

Lemma meshgrid_X (j i k : nat) (a : R) :
  at3 (fst (fst (np_meshgrid lx ly lz))) j i k = Some a ->
  nth_error lx i = Some a.
Proof.
  unfold at3, np_meshgrid. cbn [fst].
  rewrite nth_error_map. destruct (nth_error ly j); cbn; [| discriminate].
  rewrite nth_error_map. destruct (nth_error lx i) as [xi |]; cbn; [| discriminate].
  rewrite nth_error_map. destruct (nth_error lz k); cbn; [trivial | discriminate].
Qed.

Lemma meshgrid_Y (j i k : nat) (a : R) :
  at3 (snd (fst (np_meshgrid lx ly lz))) j i k = Some a ->
  nth_error ly j = Some a.
Proof.
  unfold at3, np_meshgrid. cbn [fst snd].
  rewrite nth_error_map. destruct (nth_error ly j); cbn; [| discriminate].
  rewrite nth_error_map. destruct (nth_error lx i); cbn; [| discriminate].
  rewrite nth_error_map. destruct (nth_error lz k); cbn; [trivial | discriminate].
Qed.

Lemma meshgrid_Z (j i k : nat) (a : R) :
  at3 (snd (np_meshgrid lx ly lz)) j i k = Some a ->
  nth_error lz k = Some a.
Proof.
  unfold at3, np_meshgrid. cbn [snd].
  rewrite nth_error_map. destruct (nth_error ly j); cbn; [| discriminate].
  rewrite nth_error_map. destruct (nth_error lx i); cbn; [| discriminate].
  trivial.
Qed.
End Mesh.

Section Grid.
Variables X Y Zs : list R.
Variable n_src : Z.
Variables ext_x ext_y ext_z : R.

(** What a successful run of the first part of [make_src_3D] went
    through. *)
Lemma make_src_axes_inv (ax : src_axes) :
  make_src_axes X Y Zs n_src ext_x ext_y ext_z = Ok ax ->
  exists max_X min_X max_Y min_Y max_Z min_Z p,
    np_max X = Ok max_X /\ np_min X = Ok min_X
    /\ np_max Y = Ok max_Y /\ np_min Y = Ok min_Y
    /\ np_max Zs = Ok max_Z /\ np_min Zs = Ok min_Z
    /\ get_src_params_3D (max_X - min_X + 2 * ext_x)
         (max_Y - min_Y + 2 * ext_y) (max_Z - min_Z + 2 * ext_z) n_src
       = Ok p
    /\ np_linspace (min_X - (sp_Lx_n p - (max_X - min_X)) / 2)
         (max_X + (sp_Lx_n p - (max_X - min_X)) / 2) (sp_nx p)
       = Ok (lin_x ax)
    /\ np_linspace (min_Y - (sp_Ly_n p - (max_Y - min_Y)) / 2)
         (max_Y + (sp_Ly_n p - (max_Y - min_Y)) / 2) (sp_ny p)
       = Ok (lin_y ax)
    /\ np_linspace (min_Z - (sp_Lz_n p - (max_Z - min_Z)) / 2)
         (max_Z + (sp_Lz_n p - (max_Z - min_Z)) / 2) (sp_nz p)
       = Ok (lin_z ax)
    /\ ax_ds ax = sp_ds p.
Proof.
  unfold make_src_axes. intros H.
  do 10 bind_inv H. inversion H; subst; clear H. cbn.
  do 7 eexists. repeat split; eassumption.
Qed.

(** Every axis of the grid has the spacing [ds] of [get_src_params_3D]. *)
Lemma make_src_axes_spacing (ax : src_axes) :
  make_src_axes X Y Zs n_src ext_x ext_y ext_z = Ok ax ->
  forall (i : nat) (u v : R),
    (nth_error (lin_x ax) i = Some u ->
     nth_error (lin_x ax) (S i) = Some v -> v - u = ax_ds ax)
    /\ (nth_error (lin_y ax) i = Some u ->
        nth_error (lin_y ax) (S i) = Some v -> v - u = ax_ds ax)
    /\ (nth_error (lin_z ax) i = Some u ->
        nth_error (lin_z ax) (S i) = Some v -> v - u = ax_ds ax).
Proof.
  intros H i u v.
  destruct (make_src_axes_inv ax H)
    as (aX & bX & aY & bY & aZ & bZ & p & _ & _ & _ & _ & _ & _
        & Hp & Hx & Hy & Hz & ->).
  destruct (get_src_params_3D_inv _ _ _ _ _ Hp) as (_ & _ & Ex & Ey & Ez).
  repeat split.
  - apply (np_linspace_step _ _ _ _ _ Hx). rewrite Ex. lra.
  - apply (np_linspace_step _ _ _ _ _ Hy). rewrite Ey. lra.
  - apply (np_linspace_step _ _ _ _ _ Hz). rewrite Ez. lra.
Qed.

Lemma make_src_axes_ds_neq (ax : src_axes) :
  make_src_axes X Y Zs n_src ext_x ext_y ext_z = Ok ax -> ax_ds ax <> 0.
Proof.
  intros H.
  destruct (make_src_axes_inv ax H)
    as (aX & bX & aY & bY & aZ & bZ & p & _ & _ & _ & _ & _ & _
        & Hp & _ & _ & _ & ->).
  exact (get_src_params_3D_ds_neq _ _ _ _ _ Hp).
Qed.

Variable R_init : R.

Lemma make_src_3D_inv (g : src_grid) :
  make_src_3D X Y Zs n_src ext_x ext_y ext_z R_init = Ok g ->
  exists ax,
    make_src_axes X Y Zs n_src ext_x ext_y ext_z = Ok ax
    /\ ax_ds ax <> 0
    /\ (X_src g, Y_src g, Z_src g)
       = np_meshgrid (lin_x ax) (lin_y ax) (lin_z ax)
    /\ R_src g = IZR (np_round (R_init / ax_ds ax)) * ax_ds ax.
Proof.
  unfold make_src_3D. intros H.
  destruct (make_src_axes _ _ _ _ _ _ _) as [ax | e]; cbn [bind] in H;
    [| discriminate].
  exists ax.
  destruct (np_meshgrid _ _ _) as [[Xg Yg] Zg].
  destruct (fdiv _ _) as [q | e] eqn:Eq; cbn [bind] in H; [| discriminate].
  apply fdiv_inv in Eq. destruct Eq as [Hd ->].
  inversion H; subst; clear H. cbn. repeat split; trivial.
Qed.

Lemma make_src_3D_of_axes (ax : src_axes) :
  make_src_axes X Y Zs n_src ext_x ext_y ext_z = Ok ax ->
  ax_ds ax <> 0 ->
  make_src_3D X Y Zs n_src ext_x ext_y ext_z R_init
  = Ok (mk_src_grid
          (fst (fst (np_meshgrid (lin_x ax) (lin_y ax) (lin_z ax))))
          (snd (fst (np_meshgrid (lin_x ax) (lin_y ax) (lin_z ax))))
          (snd (np_meshgrid (lin_x ax) (lin_y ax) (lin_z ax)))
          (IZR (np_round (R_init / ax_ds ax)) * ax_ds ax)).
Proof.
  intros H Hd. unfold make_src_3D. rewrite H. cbn [bind].
  destruct (np_meshgrid _ _ _) as [[Xg Yg] Zg].
  rewrite fdiv_ok by assumption. reflexivity.
Qed.
End Grid.

(** ** A worked grid *)

Lemma ex_params :
  get_src_params_3D 2 3 1 6 = Ok (mk_src_params 2 3 1 2 4 0 2).
Proof.
  rewrite get_src_params_3D_value by (lia || lra).
  replace (2 * 3 * 1 / 6) with 1 by lra. rewrite Rpower_one.
  rewrite (np_ceil_eq 2), (np_ceil_eq 3), (np_ceil_eq 1) by lra.
  change (2 - 1)%Z with 1%Z. change (3 - 1)%Z with 2%Z.
  change (1 - 1)%Z with 0%Z.
  rewrite fdiv_ok by lra. cbn [bind]. f_equal. f_equal; lra.
Qed.

Lemma get_src_params_3D_eq (a b c a' b' c' : R) (n : Z) :
  a = a' -> b = b' -> c = c' ->
  get_src_params_3D a b c n = get_src_params_3D a' b' c' n.
Proof. now intros -> -> ->. Qed.

Lemma ex_axes :
  make_src_axes ex_X ex_Y ex_Z 6 0 0 0
  = Ok (mk_src_axes [0; 2] [-1 / 2; 3 / 2; 7 / 2] [1 / 2] 2).
Proof.
  unfold make_src_axes, ex_X, ex_Y, ex_Z.
  cbn [np_max np_min fold_left bind].
  rewrite !Rmax_right, !Rmin_left by lra.
  rewrite (get_src_params_3D_eq _ _ _ 2 3 1) by lra.
  rewrite ex_params.
  cbn [bind sp_nx sp_ny sp_nz sp_Lx_n sp_Ly_n sp_Lz_n sp_ds].
  unfold np_linspace.
  cbn [Z.ltb Z.leb Z.compare Pos.compare Pos.compare_cont bind].
  change (np_arange 2) with [0%Z; 1%Z].
  change (np_arange 3) with [0%Z; 1%Z; 2%Z].
  change (np_arange 1) with [0%Z].
  change (2 - 1)%Z with 1%Z. change (3 - 1)%Z with 2%Z.
  cbn [map]. f_equal. f_equal; repeat (f_equal; try lra).
Qed.

Lemma ex_make_src (R_init : R) :
  make_src_3D ex_X ex_Y ex_Z 6 0 0 0 R_init
  = Ok (ex_grid (IZR (np_round (R_init / 2)) * 2)).
Proof.
  rewrite (make_src_3D_of_axes _ _ _ _ _ _ _ _ _ ex_axes) by (cbn; lra).
  reflexivity.
Qed.

(** A tie goes to the even neighbour. *)
Lemma np_round_tie : np_round (3 / 2) = 2%Z /\ np_round (5 / 2) = 2%Z.
Proof.
  unfold np_round, np_floor.
  rewrite (Zfloor_eq 1 (3 / 2)), (Zfloor_eq 2 (5 / 2)) by lra.
  split.
  - destruct (Rlt_dec _ _); [lra |]. destruct (Rlt_dec _ _); [lra |].
    reflexivity.
  - destruct (Rlt_dec _ _); [lra |]. destruct (Rlt_dec _ _); [lra |].
    reflexivity.
Qed.

(** C2: a request for 8 sources in the box 1 x 2 x 4 has unit length 1 and
    the counts 1, 2 and 4.  The count along x is 1, so the spacing
    [ds = Lx / (nx - 1)] is a division by zero. *)
Theorem get_src_params_3D_zero_denominator :
  np_ceil (1 / Rpower (1 * 2 * 4 / IZR 8) (1 / 3)) = 1%Z
  /\ get_src_params_3D 1 2 4 8 = Raise ZeroDivisionError.
Proof.
  split.
  - replace (1 * 2 * 4 / 8) with 1 by lra. rewrite Rpower_one.
    apply np_ceil_eq. lra.
  - rewrite get_src_params_3D_value by (lia || lra).
    replace (1 * 2 * 4 / 8) with 1 by lra. rewrite Rpower_one.
    rewrite (np_ceil_eq 1) by lra.
    change (1 - 1)%Z with 0%Z. now rewrite fdiv_zero.
Qed.

Lemma params_single_source_along_x :
  get_src_params_3D 1 2 4 8 = Raise ZeroDivisionError.
Proof.
  rewrite get_src_params_3D_value by (lia || lra).
  replace (1 * 2 * 4 / 8) with 1 by lra. rewrite Rpower_one.
  rewrite (np_ceil_eq 1) by lra.
  change (1 - 1)%Z with 0%Z. now rewrite fdiv_zero.
Qed.

(** C3: positions that span the box 1 x 2 x 4, with 8 sources asked and no
    margin, have positive extents, and [make_src_3D] returns no radius for
    them, whatever the requested radius: the single source along x makes
    the spacing a division by zero. *)
Theorem make_src_3D_no_radius_single_x (R_init : R) :
  np_max [0; 1] = Ok (Rmax 0 1) /\ np_min [0; 1] = Ok (Rmin 0 1)
  /\ 0 < Rmax 0 1 - Rmin 0 1 + 2 * 0
  /\ 0 < Rmax 0 2 - Rmin 0 2 + 2 * 0
  /\ 0 < Rmax 0 4 - Rmin 0 4 + 2 * 0
  /\ make_src_3D [0; 1] [0; 2] [0; 4] 8 0 0 0 R_init
     = Raise ZeroDivisionError.
Proof.
  split; [reflexivity |]. split; [reflexivity |].
  rewrite !Rmax_right, !Rmin_left by lra.
  split; [lra |]. split; [lra |]. split; [lra |].
  unfold make_src_3D, make_src_axes. cbn [np_max np_min fold_left bind].
  rewrite !Rmax_right, !Rmin_left by lra.
  rewrite (get_src_params_3D_eq _ _ _ 1 2 4) by lra.
  rewrite params_single_source_along_x. reflexivity.
Qed.

(** X29: once the grid is laid out, [make_src_3D] returns the radius
    [round(R_init/ds) * ds], an integer multiple of the grid spacing [ds],
    and no integer multiple of [ds] is nearer to [R_init]. *)
Theorem make_src_3D_radius_snapped (X Y Zs : list R) (n_src : Z)
    (ext_x ext_y ext_z R_init : R) (ax : src_axes) :
  make_src_axes X Y Zs n_src ext_x ext_y ext_z = Ok ax ->
  exists g,
    make_src_3D X Y Zs n_src ext_x ext_y ext_z R_init = Ok g
    /\ R_src g = IZR (np_round (R_init / ax_ds ax)) * ax_ds ax
    /\ forall k : Z,
         Rabs (R_src g - R_init) <= Rabs (IZR k * ax_ds ax - R_init).
Proof.
  intros Hax.
  pose proof (make_src_axes_ds_neq _ _ _ _ _ _ _ _ Hax) as Hd.
  rewrite (make_src_3D_of_axes _ _ _ _ _ _ _ _ _ Hax Hd).
  eexists. split; [reflexivity |]. cbn [R_src]. split; [reflexivity |].
  intros k.
  set (ds := ax_ds ax) in *. set (q := R_init / ds).
  replace (IZR (np_round q) * ds - R_init) with ((IZR (np_round q) - q) * ds)
    by (unfold q; field; exact Hd).
  replace (IZR k * ds - R_init) with ((IZR k - q) * ds)
    by (unfold q; field; exact Hd).
  rewrite !Rabs_mult.
  apply Rmult_le_compat_r; [apply Rabs_pos | apply np_round_nearest].
Qed.

Lemma make_src_3D_radius_snapped_witness :
  make_src_axes ex_X ex_Y ex_Z 6 0 0 0
  = Ok (mk_src_axes [0; 2] [-1 / 2; 3 / 2; 7 / 2] [1 / 2] 2)
  /\ exists g,
       make_src_3D ex_X ex_Y ex_Z 6 0 0 0 3 = Ok g
       /\ R_src g = IZR (np_round (3 / 2)) * 2
       /\ forall k : Z, Rabs (R_src g - 3) <= Rabs (IZR k * 2 - 3).
Proof.
  split; [exact ex_axes |].
  exact (make_src_3D_radius_snapped ex_X ex_Y ex_Z 6 0 0 0 3 _ ex_axes).
Defined.

(** C4: in every grid that [make_src_3D] returns, consecutive source
    coordinates are the same distance apart along x, y and z, and that
    distance is the [ds] that [get_src_params_3D] returned for the padded
    extents; each realized length is its count minus one, times [ds]. *)
Theorem make_src_3D_equal_spacing (X Y Zs : list R) (n_src : Z)
    (ext_x ext_y ext_z R_init : R) (g : src_grid) :
  make_src_3D X Y Zs n_src ext_x ext_y ext_z R_init = Ok g ->
  exists max_X min_X max_Y min_Y max_Z min_Z p,
    np_max X = Ok max_X /\ np_min X = Ok min_X
    /\ np_max Y = Ok max_Y /\ np_min Y = Ok min_Y
    /\ np_max Zs = Ok max_Z /\ np_min Zs = Ok min_Z
    /\ get_src_params_3D (max_X - min_X + 2 * ext_x)
         (max_Y - min_Y + 2 * ext_y) (max_Z - min_Z + 2 * ext_z) n_src
       = Ok p
    /\ sp_Lx_n p = IZR (sp_nx p - 1) * sp_ds p
    /\ sp_Ly_n p = IZR (sp_ny p - 1) * sp_ds p
    /\ sp_Lz_n p = IZR (sp_nz p - 1) * sp_ds p
    /\ grid_spacing g (sp_ds p).
Proof.
  intros H.
  destruct (make_src_3D_inv _ _ _ _ _ _ _ _ _ H) as (ax & Hax & _ & Hm & _).
  pose proof (make_src_axes_spacing _ _ _ _ _ _ _ _ Hax) as Hsp.
  destruct (make_src_axes_inv _ _ _ _ _ _ _ _ Hax)
    as (aX & bX & aY & bY & aZ & bZ & p & H1 & H2 & H3 & H4 & H5 & H6
        & Hp & _ & _ & _ & Hds).
  destruct (get_src_params_3D_inv _ _ _ _ _ Hp) as (_ & _ & Ex & Ey & Ez).
  exists aX, bX, aY, bY, aZ, bZ, p.
  repeat (split; [assumption |]).
  rewrite <- Hds.
  assert (EX : X_src g = fst (fst (np_meshgrid (lin_x ax) (lin_y ax) (lin_z ax))))
    by now rewrite <- Hm.
  assert (EY : Y_src g = snd (fst (np_meshgrid (lin_x ax) (lin_y ax) (lin_z ax))))
    by now rewrite <- Hm.
  assert (EZ : Z_src g = snd (np_meshgrid (lin_x ax) (lin_y ax) (lin_z ax)))
    by now rewrite <- Hm.
  intros j i k a b. rewrite EX, EY, EZ. repeat split; intros Ha Hb.
  - apply meshgrid_X in Ha, Hb.
    destruct (Hsp i a b) as (Hx & _ & _). now apply Hx.
  - apply meshgrid_Y in Ha, Hb.
    destruct (Hsp j a b) as (_ & Hy & _). now apply Hy.
  - apply meshgrid_Z in Ha, Hb.
    destruct (Hsp k a b) as (_ & _ & Hz). now apply Hz.
Qed.

Lemma make_src_3D_equal_spacing_witness :
  make_src_3D ex_X ex_Y ex_Z 6 0 0 0 0.23 = Ok (ex_grid (IZR (np_round (0.23 / 2)) * 2))
  /\ exists max_X min_X max_Y min_Y max_Z min_Z p,
       np_max ex_X = Ok max_X /\ np_min ex_X = Ok min_X
       /\ np_max ex_Y = Ok max_Y /\ np_min ex_Y = Ok min_Y
       /\ np_max ex_Z = Ok max_Z /\ np_min ex_Z = Ok min_Z
       /\ get_src_params_3D (max_X - min_X + 2 * 0)
            (max_Y - min_Y + 2 * 0) (max_Z - min_Z + 2 * 0) 6
          = Ok p
       /\ sp_Lx_n p = IZR (sp_nx p - 1) * sp_ds p
       /\ sp_Ly_n p = IZR (sp_ny p - 1) * sp_ds p
       /\ sp_Lz_n p = IZR (sp_nz p - 1) * sp_ds p
       /\ grid_spacing (ex_grid (IZR (np_round (0.23 / 2)) * 2)) (sp_ds p).
Proof.
  split; [apply ex_make_src |].
  apply (make_src_3D_equal_spacing ex_X ex_Y ex_Z 6 0 0 0 0.23).
  apply ex_make_src.
Defined.

(** C10: a requested radius that is positive and below half the grid
    spacing is snapped to exactly 0. *)
Theorem make_src_3D_radius_zero (X Y Zs : list R) (n_src : Z)
    (ext_x ext_y ext_z R_init : R) (ax : src_axes) :
  make_src_axes X Y Zs n_src ext_x ext_y ext_z = Ok ax ->
  0 < R_init -> R_init < ax_ds ax / 2 ->
  exists g,
    make_src_3D X Y Zs n_src ext_x ext_y ext_z R_init = Ok g
    /\ R_src g = 0.
Proof.
  intros Hax Hpos Hhalf.
  assert (Hds : 0 < ax_ds ax) by lra.
  rewrite (make_src_3D_of_axes _ _ _ _ _ _ _ _ _ Hax) by lra.
  eexists. split; [reflexivity |]. cbn [R_src].
  rewrite np_round_small; [lra |]. split.
  - apply Rlt_le. now apply Rdiv_lt_0_compat.
  - apply (Rmult_lt_reg_r (ax_ds ax)); [assumption |].
    unfold Rdiv. rewrite Rmult_assoc, Rinv_l by lra. lra.
Qed.

Lemma make_src_3D_radius_zero_witness :
  make_src_axes ex_X ex_Y ex_Z 6 0 0 0
  = Ok (mk_src_axes [0; 2] [-1 / 2; 3 / 2; 7 / 2] [1 / 2] 2)
  /\ 0 < 0.23
  /\ exists g,
       make_src_3D ex_X ex_Y ex_Z 6 0 0 0 0.23 = Ok g /\ R_src g = 0.
Proof.
  split; [exact ex_axes |]. split; [lra |].
  apply (make_src_3D_radius_zero ex_X ex_Y ex_Z 6 0 0 0 0.23 _ ex_axes).
  - lra.
  - cbn [ax_ds]. lra.
Defined.


(** * Further properties of the basis functions *)

Lemma rmap_ext {A B : Type} (f g : A -> B) (m : result A) :
  (forall a, f a = g a) -> rmap f m = rmap g m.
Proof.
  intros H. unfold rmap. destruct m; cbn [bind]; [now rewrite H | reflexivity].
Qed.

Lemma sqrt_2PI_pos : 0 < sqrt (2 * PI).
Proof. apply sqrt_lt_R0. pose proof PI_RGT_0. lra. Qed.

Lemma gauss_density_decr (s d d' : R) :
  0 < s -> d <= d' -> gauss_density s d' <= gauss_density s d.
Proof.
  intros Hs Hd. unfold gauss_density.
  apply Rmult_le_compat_l.
  - apply pow_le. apply Rlt_le. apply Rdiv_lt_0_compat; [lra |].
    apply Rmult_lt_0_compat; [apply sqrt_2PI_pos | assumption].
  - assert (Hq : - d' / (2 * s ^ 2) <= - d / (2 * s ^ 2)).
    { unfold Rdiv. apply Rmult_le_compat_r; [| lra].
      apply Rlt_le, Rinv_0_lt_compat.
      assert (0 < s ^ 2) by now apply pow_lt. lra. }
    destruct Hq as [Hq | Hq]; [apply Rlt_le, exp_increasing, Hq | rewrite Hq; lra].
Qed.

Lemma gauss_density_neg (s d : R) : s < 0 -> gauss_density s d < 0.
Proof.
  intros Hs. unfold gauss_density.
  pose proof sqrt_2PI_pos as Hq. pose proof (exp_pos (- d / (2 * s ^ 2))) as He.
  assert (Hden : sqrt (2 * PI) * s < 0) by nra.
  assert (Hinv : 1 / (sqrt (2 * PI) * s) < 0).
  { unfold Rdiv. rewrite Rmult_1_l. now apply Rinv_lt_0_compat. }
  assert (Hcube : (1 / (sqrt (2 * PI) * s)) ^ 3 < 0).
  { set (t := 1 / (sqrt (2 * PI) * s)) in *.
    assert (0 < t * t) by nra.
    replace (t ^ 3) with (t * (t * t)) by ring. nra. }
  nra.
Qed.

(** X1: a zero extent parameter makes both Gaussian basis functions fail
    with a division by zero, at every point and for every [mu]. *)
Theorem gauss_zero_width (x y z : R) (mu : list R) :
  gauss_rescale_3D x y z mu 0 = Raise ZeroDivisionError
  /\ gauss_rescale_lim_3D x y z mu 0 = Raise ZeroDivisionError.
Proof.
  assert (H : gauss_rescale_3D x y z mu 0 = Raise ZeroDivisionError).
  { unfold gauss_rescale_3D.
    rewrite fpow_sqrt by (pose proof PI_RGT_0; lra). cbn [bind].
    replace ((sqrt (2 * PI) * (0 / 3.0)) ^ 3) with 0
      by (replace (0 / 3.0) with 0 by lra; ring).
    now rewrite fdiv_zero. }
  split; [exact H |]. unfold gauss_rescale_lim_3D. now rewrite H.
Qed.

(** X2: with a non-zero extent parameter, a center [mu] of fewer than three
    coordinates makes [gauss_rescale_3D] fail with an index error. *)
Theorem gauss_short_mu (x y z : R) (mu : list R) (three_stdev : R) :
  three_stdev <> 0 -> (length mu < 3)%nat ->
  gauss_rescale_3D x y z mu three_stdev = Raise IndexError.
Proof.
  intros Hr Hlen. unfold gauss_rescale_3D.
  rewrite fpow_sqrt by (pose proof PI_RGT_0; lra). cbn [bind].
  pose proof sqrt_2PI_pos as Hs.
  assert (Hsd : three_stdev / 3.0 <> 0) by (intros E; apply Hr; lra).
  rewrite fdiv_ok
    by (apply pow_nonzero; apply Rmult_integral_contrapositive_currified; lra).
  cbn [bind]. rewrite fpow_int_ok by assumption. cbn [bind].
  destruct mu as [| a [| b [| c l]]]; cbn [length] in Hlen; try lia;
    reflexivity.
Qed.

Lemma gauss_short_mu_witness :
  1 <> 0 /\ gauss_rescale_3D 0 0 0 [0; 0] 1 = Raise IndexError.
Proof.
  split; [lra |].
  apply (gauss_short_mu 0 0 0 [0; 0] 1); [lra | cbn; lia].
Defined.

(** X3: for a positive extent parameter the Gaussian basis decreases with
    the distance from the center: a point no nearer to [mu] than another
    gets no larger a value, and no point gets more than the center. *)
Theorem gauss_decreasing (x y z x' y' z' m0 m1 m2 three_stdev : R) :
  0 < three_stdev ->
  sqdist x y z m0 m1 m2 <= sqdist x' y' z' m0 m1 m2 ->
  exists v v' peak,
    gauss_rescale_3D x y z [m0; m1; m2] three_stdev = Ok v
    /\ gauss_rescale_3D x' y' z' [m0; m1; m2] three_stdev = Ok v'
    /\ gauss_rescale_3D m0 m1 m2 [m0; m1; m2] three_stdev = Ok peak
    /\ v' <= v <= peak.
Proof.
  intros Hr Hd. rewrite !gauss_value by lra.
  do 3 eexists. repeat split.
  - apply gauss_density_decr; [lra | exact Hd].
  - apply gauss_density_decr; [lra |]. unfold sqdist.
    pose proof (pow2_ge_0 (x - m0)). pose proof (pow2_ge_0 (y - m1)).
    pose proof (pow2_ge_0 (z - m2)). lra.
Qed.

Lemma gauss_decreasing_witness :
  0 < 3
  /\ exists v v' peak,
       gauss_rescale_3D 1 0 0 [0; 0; 0] 3 = Ok v
       /\ gauss_rescale_3D 1 1 0 [0; 0; 0] 3 = Ok v'
       /\ gauss_rescale_3D 0 0 0 [0; 0; 0] 3 = Ok peak
       /\ v' <= v <= peak.
Proof.
  split; [lra |].
  apply (gauss_decreasing 1 0 0 1 1 0 0 0 0 3); [lra |].
  unfold sqdist. lra.
Defined.

(** X4: a negative radius is not rejected.  [gauss_rescale_3D] then returns
    a negative number at every point, and [step_rescale_3D] returns a
    negative number at every point of the ball of radius [|R|] around the
    origin. *)
Theorem negative_radius_negative_value (x y z m0 m1 m2 rad : R) :
  rad < 0 ->
  (exists v, gauss_rescale_3D x y z [m0; m1; m2] rad = Ok v /\ v < 0)
  /\ (x ^ 2 + y ^ 2 + z ^ 2 <= rad ^ 2 ->
      exists v, step_rescale_3D x y z [m0; m1; m2] rad = Ok v /\ v < 0).
Proof.
  intros Hr. split.
  - rewrite gauss_value by lra. eexists. split; [reflexivity |].
    apply gauss_density_neg. lra.
  - intros Hin. rewrite step_value by lra. rewrite fle_true by assumption.
    eexists. split; [reflexivity |]. cbn [b2R]. rewrite Rmult_1_r.
    unfold ball_density. pose proof PI_RGT_0 as Hpi.
    assert (H3 : rad ^ 3 < 0).
    { assert (0 < rad * rad) by nra.
      replace (rad ^ 3) with (rad * (rad * rad)) by ring. nra. }
    unfold Rdiv. assert (Hi : / (4 * PI * rad ^ 3) < 0)
      by (apply Rinv_lt_0_compat; nra).
    nra.
Qed.

Lemma negative_radius_negative_value_witness :
  -1 < 0
  /\ (exists v, gauss_rescale_3D 0 0 0 [0; 0; 0] (-1) = Ok v /\ v < 0)
  /\ exists v, step_rescale_3D 0 0 0 [0; 0; 0] (-1) = Ok v /\ v < 0.
Proof.
  split; [lra |].
  destruct (negative_radius_negative_value 0 0 0 0 0 0 (-1)) as [Hg Hs]; [lra |].
  split; [exact Hg | apply Hs; lra].
Defined.

(** X5: for a positive radius the truncated Gaussian lies between 0 and the
    untruncated one at every point. *)
Theorem gauss_lim_bounds (x y z m0 m1 m2 three_stdev : R) :
  0 < three_stdev ->
  exists v g,
    gauss_rescale_lim_3D x y z [m0; m1; m2] three_stdev = Ok v
    /\ gauss_rescale_3D x y z [m0; m1; m2] three_stdev = Ok g
    /\ 0 <= v <= g.
Proof.
  intros Hr. rewrite gauss_lim_value, gauss_value by lra.
  do 2 eexists. split; [reflexivity |]. split; [reflexivity |].
  pose proof (gauss_density_pos x y z m0 m1 m2 (three_stdev / 3)) as Hp.
  assert (Hpos : 0 < gauss_density (three_stdev / 3) (sqdist x y z m0 m1 m2))
    by (apply Hp; lra).
  destruct (flt _ _); cbn [b2R]; lra.
Qed.

Lemma gauss_lim_bounds_witness :
  0 < 3
  /\ exists v g,
       gauss_rescale_lim_3D 1 2 3 [0; 0; 0] 3 = Ok v
       /\ gauss_rescale_3D 1 2 3 [0; 0; 0] 3 = Ok g
       /\ 0 <= v <= g.
Proof.
  split; [lra |]. apply (gauss_lim_bounds 1 2 3 0 0 0 3). lra.
Defined.

(** X6: a zero radius makes [step_rescale_3D] fail with a division by zero,
    at every point. *)
Theorem step_zero_radius (xp yp zp : R) (mu : list R) :
  step_rescale_3D xp yp zp mu 0 = Raise ZeroDivisionError.
Proof.
  unfold step_rescale_3D.
  replace (4 * PI * 0 ^ 3) with 0 by ring. now rewrite fdiv_zero.
Qed.

(** X7: a change of length unit.  Multiplying the point, the center and the
    radius by a factor [lam] divides the value of each basis function by
    [lam^3], as a density per volume does. *)
Theorem basis_rescaling (lam x y z m0 m1 m2 rad : R) :
  lam <> 0 -> rad <> 0 ->
  step_rescale_3D (lam * x) (lam * y) (lam * z)
    [lam * m0; lam * m1; lam * m2] (lam * rad)
  = rmap (fun v => v / lam ^ 3) (step_rescale_3D x y z [m0; m1; m2] rad)
  /\ gauss_rescale_3D (lam * x) (lam * y) (lam * z)
       [lam * m0; lam * m1; lam * m2] (lam * rad)
     = rmap (fun v => v / lam ^ 3) (gauss_rescale_3D x y z [m0; m1; m2] rad)
  /\ gauss_rescale_lim_3D (lam * x) (lam * y) (lam * z)
       [lam * m0; lam * m1; lam * m2] (lam * rad)
     = rmap (fun v => v / lam ^ 3)
         (gauss_rescale_lim_3D x y z [m0; m1; m2] rad).
Proof.
  intros Hl Hr.
  assert (Hlr : lam * rad <> 0)
    by (apply Rmult_integral_contrapositive_currified; assumption).
  assert (Hl2 : 0 < lam * lam) by nra.
  pose proof PI_RGT_0 as Hpi. pose proof sqrt_2PI_pos as Hq.
  assert (Hg : gauss_density (lam * rad / 3)
                 (sqdist (lam * x) (lam * y) (lam * z)
                    (lam * m0) (lam * m1) (lam * m2))
               = gauss_density (rad / 3) (sqdist x y z m0 m1 m2) / lam ^ 3).
  { unfold gauss_density, sqdist.
    replace (- ((lam * x - lam * m0) ^ 2 + (lam * y - lam * m1) ^ 2
                + (lam * z - lam * m2) ^ 2) / (2 * (lam * rad / 3) ^ 2))
      with (- ((x - m0) ^ 2 + (y - m1) ^ 2 + (z - m2) ^ 2)
              / (2 * (rad / 3) ^ 2))
      by (field; split; lra).
    field. repeat split; lra. }
  rewrite !step_value, !gauss_lim_value, !gauss_value by assumption.
  unfold rmap. cbn [bind]. repeat split; f_equal.
  - assert (Hb : fle ((lam * x) ^ 2 + (lam * y) ^ 2 + (lam * z) ^ 2)
                     ((lam * rad) ^ 2)
                 = fle (x ^ 2 + y ^ 2 + z ^ 2) (rad ^ 2)).
    { unfold fle.
      destruct (Rle_dec _ _) as [H1 | H1], (Rle_dec _ _) as [H2 | H2];
        try reflexivity; exfalso; nra. }
    rewrite Hb. unfold ball_density. field.
    repeat split; lra.
  - exact Hg.
  - assert (Hb : flt (sqdist (lam * x) (lam * y) (lam * z)
                        (lam * m0) (lam * m1) (lam * m2))
                     ((lam * rad) ^ 2)
                 = flt (sqdist x y z m0 m1 m2) (rad ^ 2)).
    { unfold flt, sqdist.
      destruct (Rlt_dec _ _) as [H1 | H1], (Rlt_dec _ _) as [H2 | H2];
        try reflexivity; exfalso; nra. }
    rewrite Hb, Hg. field. lra.
Qed.

Lemma basis_rescaling_witness :
  1000 <> 0 /\ 1 <> 0
  /\ step_rescale_3D (1000 * 0) (1000 * 0) (1000 * 0)
       [1000 * 0; 1000 * 0; 1000 * 0] (1000 * 1)
     = rmap (fun v => v / 1000 ^ 3) (step_rescale_3D 0 0 0 [0; 0; 0] 1).
Proof.
  split; [lra |]. split; [lra |].
  apply (basis_rescaling 1000 0 0 0 0 0 0 1); lra.
Defined.

(** * Further properties of the integrands *)

Lemma sinh_opp (x : R) : sinh (- x) = - sinh x.
Proof. unfold sinh. rewrite Ropp_involutive. lra. Qed.

Lemma arcsinh_opp (x : R) : arcsinh (- x) = - arcsinh x.
Proof.
  rewrite <- (sinh_arcsinh x) at 1. rewrite <- sinh_opp. apply arcsinh_sinh.
Qed.

Lemma sum_1_to_opp (M : nat) (f : nat -> R) :
  sum_1_to M (fun k => - f k) = - sum_1_to M f.
Proof.
  induction M as [| M IH]; cbn [sum_1_to]; [lra | rewrite IH; lra].
Qed.

Lemma sum_1_to_zero (M : nat) (f : nat -> R) :
  (forall k, (1 <= k <= M)%nat -> f k = 0) -> sum_1_to M f = 0.
Proof.
  induction M as [| M IH]; intros H; cbn [sum_1_to]; [reflexivity |].
  rewrite IH by (intros k Hk; apply H; lia). rewrite (H (S M)) by lia. lra.
Qed.

Lemma sqrt3_nonneg (a b c : R) : 0 <= a ^ 2 + b ^ 2 + c ^ 2.
Proof.
  pose proof (pow2_ge_0 a). pose proof (pow2_ge_0 b). pose proof (pow2_ge_0 c).
  lra.
Qed.

(** X8: the two regimes of [int_pot_3D].  At a distance of at least 1e-5
    from the field point the integrand is the basis value over the distance;
    nearer than that it is 100000 times the basis value, whatever the
    distance. *)
Theorem int_pot_3D_regimes (xp yp zp x rad h : R) (basis_func : basis3D) :
  let d := sqrt ((x - xp) ^ 2 + yp ^ 2 + zp ^ 2) in
  (0.00001 <= d ->
   int_pot_3D xp yp zp x rad h basis_func
   = rmap (fun b => 1 / d * b) (basis_func xp yp zp [0; 0; 0] rad))
  /\ (d <= 0.00001 ->
      int_pot_3D xp yp zp x rad h basis_func
      = rmap (fun b => 100000 * b) (basis_func xp yp zp [0; 0; 0] rad)).
Proof.
  intros d. rewrite int_pot_3D_value. fold d. split; intros Hd.
  - unfold floor_dist. now rewrite Rmax_left.
  - unfold floor_dist. rewrite Rmax_right by assumption.
    apply rmap_ext. intros b. lra.
Qed.

Lemma int_pot_3D_regimes_witness :
  int_pot_3D 0 0 0 2 1 1 (fun _ _ _ _ _ => Ok 1)
  = rmap (fun b => 1 / sqrt ((2 - 0) ^ 2 + 0 ^ 2 + 0 ^ 2) * b) (Ok 1)
  /\ int_pot_3D 0 0 0 0 1 1 (fun _ _ _ _ _ => Ok 1)
     = rmap (fun b => 100000 * b) (Ok 1).
Proof.
  split.
  - apply (int_pot_3D_regimes 0 0 0 2 1 1 (fun _ _ _ _ _ => Ok 1)).
    replace ((2 - 0) ^ 2 + 0 ^ 2 + 0 ^ 2) with (2 ^ 2) by lra.
    rewrite sqrt_pow2 by lra. lra.
  - apply (int_pot_3D_regimes 0 0 0 0 1 1 (fun _ _ _ _ _ => Ok 1)).
    replace ((0 - 0) ^ 2 + 0 ^ 2 + 0 ^ 2) with 0 by lra.
    rewrite sqrt_0. lra.
Defined.

(** X9: the singularity is capped.  When the basis function returns a
    non-negative value [b], [int_pot_3D] returns a value between 0 and
    [100000 * b]. *)
Theorem int_pot_3D_bounded (xp yp zp x rad h b : R) (basis_func : basis3D) :
  basis_func xp yp zp [0; 0; 0] rad = Ok b -> 0 <= b ->
  exists v,
    int_pot_3D xp yp zp x rad h basis_func = Ok v /\ 0 <= v <= 100000 * b.
Proof.
  intros Hb Hpos. rewrite int_pot_3D_value, Hb. unfold rmap. cbn [bind].
  eexists. split; [reflexivity |].
  set (y := floor_dist _). assert (Hy : 0.00001 <= y) by apply floor_dist_ge.
  assert (Hi : 0 < 1 / y <= 100000).
  { split.
    - apply Rdiv_lt_0_compat; lra.
    - apply (Rmult_le_reg_r y); [lra |]. unfold Rdiv.
      rewrite Rmult_1_l, Rinv_l by lra. lra. }
  split; [apply Rmult_le_pos; lra | apply Rmult_le_compat_r; lra].
Qed.

Lemma int_pot_3D_bounded_witness :
  0 <= 1
  /\ exists v,
       int_pot_3D 0 0 0 0 1 1 (fun _ _ _ _ _ => Ok 1) = Ok v
       /\ 0 <= v <= 100000 * 1.
Proof.
  split; [lra |].
  apply (int_pot_3D_bounded 0 0 0 0 1 1 1 (fun _ _ _ _ _ => Ok 1));
    [reflexivity | lra].
Defined.

(** X10: with each of the three basis functions of [basis_types],
    [int_pot_3D] takes the same value at a point and at its mirror images
    across the axis through the source center and the field point. *)
Theorem int_pot_3D_mirror (k : basis_name) (xp yp zp x rad h : R) :
  int_pot_3D xp (- yp) zp x rad h (basis_types k)
  = int_pot_3D xp yp zp x rad h (basis_types k)
  /\ int_pot_3D xp yp (- zp) x rad h (basis_types k)
     = int_pot_3D xp yp zp x rad h (basis_types k).
Proof.
  unfold int_pot_3D.
  destruct k; cbn [basis_types];
    unfold gauss_rescale_lim_3D, gauss_rescale_3D, step_rescale_3D;
    cbn [index nth_error bind];
    replace ((- yp) ^ 2) with (yp ^ 2) by ring;
    replace ((- zp) ^ 2) with (zp ^ 2) by ring;
    replace ((- yp - 0) ^ 2) with ((yp - 0) ^ 2) by ring;
    replace ((- zp - 0) ^ 2) with ((zp - 0) ^ 2) by ring;
    split; reflexivity.
Qed.

(** X11: [int_pot_2D_moi] takes the same value at a point and at its mirror
    image across the axis through the source center and the field point,
    and the same value when the point and the field position are both
    reflected through the center. *)
Theorem int_pot_2D_moi_mirror (self : MoIKCSD) (xp yp x rad h : R)
    (basis_func : basis2D) :
  int_pot_2D_moi self xp (- yp) x rad h basis_func
  = int_pot_2D_moi self xp yp x rad h basis_func
  /\ int_pot_2D_moi self (- xp) yp (- x) rad h basis_func
     = int_pot_2D_moi self xp yp x rad h basis_func.
Proof.
  unfold int_pot_2D_moi.
  replace ((- yp) ^ 2) with (yp ^ 2) by ring.
  replace ((- xp) ^ 2) with (xp ^ 2) by ring.
  replace ((- x - - xp) ^ 2) with ((x - xp) ^ 2) by ring.
  split; reflexivity.
Qed.

Lemma moi_series_zero_thickness (M : nat) (W L : R) : moi_series M W 0 L = 0.
Proof.
  unfold moi_series.
  replace (0 / L) with 0 by (unfold Rdiv; ring). rewrite arcsinh_0.
  rewrite sum_1_to_zero; [lra |]. intros k _.
  replace ((0 - 2 * 0 * INR k) / L) with 0 by (unfold Rdiv; ring).
  replace ((0 + 2 * 0 * INR k) / L) with 0 by (unfold Rdiv; ring).
  rewrite arcsinh_0. ring.
Qed.

Lemma moi_series_opp (M : nat) (W h L : R) :
  moi_series M W (- h) L = - moi_series M W h L.
Proof.
  unfold moi_series.
  replace (- h / L) with (- (h / L)) by (unfold Rdiv; ring).
  rewrite arcsinh_opp.
  rewrite (sum_1_to_ext _
    (fun k => - (W ^ k * (arcsinh ((h - 2 * h * INR k) / L)
                          + arcsinh ((h + 2 * h * INR k) / L))))).
  - rewrite sum_1_to_opp. lra.
  - intros k _.
    replace ((- h - 2 * - h * INR k) / L) with (- ((h - 2 * h * INR k) / L))
      by (unfold Rdiv; ring).
    replace ((- h + 2 * - h * INR k) / L) with (- ((h + 2 * h * INR k) / L))
      by (unfold Rdiv; ring).
    rewrite !arcsinh_opp. ring.
Qed.

Lemma moi_series_no_weight (M : nat) (h L : R) :
  moi_series M 0 h L = arcsinh (h / L).
Proof.
  unfold moi_series. rewrite sum_1_to_zero; [lra |].
  intros k Hk. rewrite pow_i by lia. ring.
Qed.

(** X12: a slice of zero thickness gives no potential.  For an estimator
    built by [MoIKCSD.__init__], [int_pot_2D_moi] with [h = 0] returns 0
    whenever the basis function returns. *)
Theorem int_pot_2D_moi_zero_thickness (kw : kwargs) (self : MoIKCSD)
    (xp yp x rad : R) (basis_func : basis2D) :
  MoIKCSD_init kw = Ok self ->
  int_pot_2D_moi self xp yp x rad 0 basis_func
  = rmap (fun _ => 0) (basis_func (sqrt (xp ^ 2 + yp ^ 2)) rad).
Proof.
  intros Hinit. rewrite (int_pot_2D_moi_value kw self Hinit).
  apply rmap_ext. intros b. rewrite moi_series_zero_thickness. ring.
Qed.

Lemma int_pot_2D_moi_zero_thickness_witness :
  MoIKCSD_init kw2 = Ok self2
  /\ int_pot_2D_moi self2 1 2 3 1 0 (fun _ _ => Ok 1) = rmap (fun _ => 0) (Ok 1).
Proof.
  split; [exact init_kw2 |].
  exact (int_pot_2D_moi_zero_thickness kw2 self2 1 2 3 1 (fun _ _ => Ok 1)
           init_kw2).
Defined.

(** X13: the integrand is odd in the thickness.  For an estimator built by
    [MoIKCSD.__init__], changing the sign of [h] changes the sign of the
    value of [int_pot_2D_moi]. *)
Theorem int_pot_2D_moi_odd_in_h (kw : kwargs) (self : MoIKCSD)
    (xp yp x rad h : R) (basis_func : basis2D) :
  MoIKCSD_init kw = Ok self ->
  int_pot_2D_moi self xp yp x rad (- h) basis_func
  = rmap Ropp (int_pot_2D_moi self xp yp x rad h basis_func).
Proof.
  intros Hinit. rewrite !(int_pot_2D_moi_value kw self Hinit).
  unfold rmap. destruct (basis_func _ _) as [b | e]; cbn [bind]; [| reflexivity].
  f_equal. rewrite moi_series_opp. ring.
Qed.

Lemma int_pot_2D_moi_odd_in_h_witness :
  MoIKCSD_init kw2 = Ok self2
  /\ int_pot_2D_moi self2 1 2 3 1 (- 1) (fun _ _ => Ok 1)
     = rmap Ropp (int_pot_2D_moi self2 1 2 3 1 1 (fun _ _ => Ok 1)).
Proof.
  split; [exact init_kw2 |].
  exact (int_pot_2D_moi_odd_in_h kw2 self2 1 2 3 1 1 (fun _ _ => Ok 1)
           init_kw2).
Defined.

(** X14: without images the integrand is the base term alone.  When the
    configured [MoI_iters] is zero or negative, or when the two
    conductivities are equal, [int_pot_2D_moi] returns [asinh(h/L)] times
    the basis value. *)
Theorem int_pot_2D_moi_base_term (kw : kwargs) (self : MoIKCSD)
    (xp yp x rad h : R) (basis_func : basis2D) :
  MoIKCSD_init kw = Ok self ->
  (get (kw_MoI_iters kw) 20 <= 0)%Z
  \/ get (kw_sigma kw) 1 = get (kw_sigma_S kw) 5 ->
  int_pot_2D_moi self xp yp x rad h basis_func
  = rmap (fun b =>
            arcsinh (h / Rmax (sqrt ((x - xp) ^ 2 + yp ^ 2)) 0.00001) * b)
         (basis_func (sqrt (xp ^ 2 + yp ^ 2)) rad).
Proof.
  intros Hinit Hcase. rewrite (int_pot_2D_moi_value kw self Hinit).
  apply rmap_ext. intros b. f_equal. destruct Hcase as [HM | Hs].
  - replace (Z.to_nat (get (kw_MoI_iters kw) 20%Z)) with 0%nat by lia.
    unfold moi_series, floor_dist. cbn [sum_1_to]. lra.
  - unfold weight_ratio. rewrite Hs.
    replace ((get (kw_sigma_S kw) 5 - get (kw_sigma_S kw) 5)
             / (get (kw_sigma_S kw) 5 + get (kw_sigma_S kw) 5))
      with 0 by (unfold Rdiv; ring).
    apply moi_series_no_weight.
Qed.

Lemma int_pot_2D_moi_base_term_witness :
  exists self,
    MoIKCSD_init (mk_kwargs (Some 0%Z) None None) = Ok self
    /\ int_pot_2D_moi self 1 2 3 1 1 (fun _ _ => Ok 1)
       = rmap (fun b =>
                 arcsinh (1 / Rmax (sqrt ((3 - 1) ^ 2 + 2 ^ 2)) 0.00001) * b)
              (Ok 1).
Proof.
  destruct (MoIKCSD_init_returns (mk_kwargs (Some 0%Z) None None))
    as [self Hs]; [cbn; lra |].
  exists self. split; [exact Hs |].
  apply (int_pot_2D_moi_base_term _ self 1 2 3 1 1 (fun _ _ => Ok 1) Hs).
  left. cbn. lia.
Defined.

(** X15: [MoIKCSD.__init__] fails with a division by zero when the two
    conductivities cancel, before the initializer of the parent class is
    reached.  Otherwise it hands over to that initializer an object that
    keeps the configured [MoI_iters], [sigma] and [sigma_S] and holds the
    iteration indices 1, ..., [MoI_iters] (none for a count of zero or
    less) with one weight per index; its outcome is then the parent's. *)
Theorem MoIKCSD_init_outcome (super_init : MoIKCSD -> result MoIKCSD)
    (kw : kwargs) :
  let s := get (kw_sigma kw) 1 in
  let sS := get (kw_sigma_S kw) 5 in
  let M := get (kw_MoI_iters kw) 20%Z in
  (s + sS = 0 -> MoIKCSD_init_with super_init kw = Raise ZeroDivisionError)
  /\ (s + sS <> 0 ->
      exists self,
        MoIKCSD_init_with super_init kw = super_init self
        /\ MoI_iters self = M /\ sigma self = s /\ sigma_S self = sS
        /\ iters self = map Z.of_nat (seq 1 (Z.to_nat M))
        /\ length (iter_factor self) = Z.to_nat M).
Proof.
  intros s sS M. unfold MoIKCSD_init_with. split.
  - intros H0. unfold MoIKCSD_init.
    replace (get (kw_sigma kw) 1.0 + get (kw_sigma_S kw) 5.0) with 0.
    + now rewrite fdiv_zero.
    + rewrite <- H0. unfold s, sS.
      replace 1.0 with 1 by lra. replace 5.0 with 5 by lra. reflexivity.
  - intros Hn. destruct (MoIKCSD_init_returns kw Hn) as [self Hs].
    exists self. rewrite Hs. cbn [bind]. split; [reflexivity |].
    destruct (init_fields kw self Hs) as (HM & Hit & Hfac).
    split; [exact HM |].
    assert (Hf : sigma self = s /\ sigma_S self = sS).
    { revert Hs. unfold MoIKCSD_init.
      destruct (fdiv _ _); cbn [bind]; [| discriminate].
      destruct (mapM _ _); cbn [bind]; [| discriminate].
      intros E. inversion E; subst; clear E. cbn. unfold s, sS.
      replace 1.0 with 1 by lra. replace 5.0 with 5 by lra. now split. }
    destruct Hf as [H1 H2]. repeat split; trivial.
    rewrite Hfac, Hit, !length_map, length_seq. reflexivity.
Qed.

Lemma MoIKCSD_init_outcome_witness :
  MoIKCSD_init_with (fun self => Ok self) (mk_kwargs None (Some 1) (Some (-1)))
  = Raise ZeroDivisionError
  /\ exists self,
       MoIKCSD_init_with (fun self => Ok self) (mk_kwargs None None None)
       = Ok self
       /\ MoI_iters self = 20%Z.
Proof.
  split.
  - apply (MoIKCSD_init_outcome (fun self => Ok self)
             (mk_kwargs None (Some 1) (Some (-1)))).
    cbn. lra.
  - destruct (MoIKCSD_init_outcome (fun self => Ok self)
                (mk_kwargs None None None)) as [_ H].
    destruct H as (self & Hs & HM & _); [cbn; lra |].
    exists self. split; [exact Hs | exact HM].
Defined.

(** X16: with two positive conductivities every stored weight [W^k] is
    smaller than 1 in absolute value. *)
Theorem MoIKCSD_weights_below_one (kw : kwargs) (self : MoIKCSD) :
  MoIKCSD_init kw = Ok self ->
  0 < get (kw_sigma kw) 1 -> 0 < get (kw_sigma_S kw) 5 ->
  Forall (fun w => Rabs w < 1) (iter_factor self).
Proof.
  intros Hinit Hs HsS.
  destruct (init_fields kw self Hinit) as (_ & Hit & ->).
  rewrite Hit, map_map. apply Forall_forall. intros w Hw.
  apply in_map_iff in Hw. destruct Hw as (k & <- & Hk).
  apply in_seq in Hk. rewrite <- pow_powerRZ, <- RPow_abs.
  set (W := weight_ratio _ _).
  assert (HW : 0 <= Rabs W < 1).
  { split; [apply Rabs_pos |]. unfold W, weight_ratio.
    set (a := get (kw_sigma kw) 1) in *. set (b := get (kw_sigma_S kw) 5) in *.
    apply Rabs_def1.
    - apply (Rmult_lt_reg_r (a + b)); [lra |].
      unfold Rdiv. rewrite Rmult_assoc, Rinv_l by lra. lra.
    - apply (Rmult_lt_reg_r (a + b)); [lra |].
      unfold Rdiv. rewrite Rmult_assoc, Rinv_l by lra. lra. }
  apply pow_lt_1_compat; [exact HW | lia].
Qed.

Lemma MoIKCSD_weights_below_one_witness :
  MoIKCSD_init kw2 = Ok self2
  /\ Forall (fun w => Rabs w < 1) (iter_factor self2).
Proof.
  split; [exact init_kw2 |].
  apply (MoIKCSD_weights_below_one kw2 self2 init_kw2); cbn; lra.
Defined.

(** * Further properties of the source grid *)

Lemma cbrt_cubed (v : R) : 0 < v -> Rpower v (1 / 3) ^ 3 = v.
Proof.
  intros Hv. rewrite <- Rpower_pow by (unfold Rpower; apply exp_pos).
  rewrite Rpower_mult. replace (1 / 3 * INR 3) with 1 by (cbn; lra).
  now apply Rpower_1.
Qed.

Lemma cube_lt (a b : R) : 0 < a -> 0 < b -> a ^ 3 < b ^ 3 -> a < b.
Proof.
  intros Ha Hb H. destruct (Rlt_dec a b) as [Hlt | Hge]; [exact Hlt |].
  exfalso. assert (Hba : b <= a) by lra.
  assert (b ^ 3 <= a ^ 3) by (apply pow_incr; lra). lra.
Qed.

Section Params.
Variables Lx Ly Lz : R.
Variable n_src : Z.
Hypothesis HLx : 0 < Lx.
Hypothesis HLy : 0 < Ly.
Hypothesis HLz : 0 < Lz.
Hypothesis Hn : (1 <= n_src)%Z.

Let L_unit := Rpower (Lx * Ly * Lz / IZR n_src) (1 / 3).

Lemma n_src_pos : 0 < IZR n_src.
Proof. apply IZR_lt. lia. Qed.

Lemma V_unit_pos : 0 < Lx * Ly * Lz / IZR n_src.
Proof.
  apply Rdiv_lt_0_compat; [| apply n_src_pos].
  repeat apply Rmult_lt_0_compat; assumption.
Qed.

Lemma L_unit_pos : 0 < L_unit.
Proof. unfold L_unit, Rpower. apply exp_pos. Qed.

Lemma L_unit_cubed : L_unit ^ 3 = Lx * Ly * Lz / IZR n_src.
Proof. apply cbrt_cubed, V_unit_pos. Qed.

(** The unit length is below [Lx] exactly when [n_src * Lx^2 > Ly * Lz]. *)
Lemma L_unit_lt_Lx : Ly * Lz < IZR n_src * Lx ^ 2 <-> L_unit < Lx.
Proof.
  pose proof n_src_pos as Hp. pose proof L_unit_pos as HL.
  pose proof L_unit_cubed as Hc.
  assert (Hc' : L_unit ^ 3 * IZR n_src = Lx * Ly * Lz)
    by (rewrite Hc; field; lra).
  split; intros H.
  - apply cube_lt; try assumption. nra.
  - assert (L_unit ^ 3 < Lx ^ 3).
    { replace (Lx ^ 3) with (Lx * Lx * Lx) by ring.
      replace (L_unit ^ 3) with (L_unit * L_unit * L_unit) by ring.
      assert (L_unit * L_unit < Lx * Lx) by nra. nra. }
    nra.
Qed.

Lemma get_src_params_3D_pos_value :
  get_src_params_3D Lx Ly Lz n_src
  = (ds <- fdiv Lx (IZR (np_ceil (Lx / L_unit) - 1)) ;;
     Ok (mk_src_params (np_ceil (Lx / L_unit)) (np_ceil (Ly / L_unit))
           (np_ceil (Lz / L_unit))
           (IZR (np_ceil (Lx / L_unit) - 1) * ds)
           (IZR (np_ceil (Ly / L_unit) - 1) * ds)
           (IZR (np_ceil (Lz / L_unit) - 1) * ds) ds)).
Proof.
  rewrite get_src_params_3D_value; [reflexivity | lia | apply V_unit_pos].
Qed.

Lemma np_ceil_x_two : L_unit < Lx -> (2 <= np_ceil (Lx / L_unit))%Z.
Proof.
  intros H. pose proof L_unit_pos as HL.
  pose proof (Zceil_bound (Lx / L_unit)) as [_ Hu]. unfold np_ceil.
  assert (Hq : 1 < Lx / L_unit).
  { apply (Rmult_lt_reg_r L_unit); [assumption |].
    unfold Rdiv. rewrite Rmult_assoc, Rinv_l by lra. lra. }
  assert (Hc : 1 < IZR (Zceil (Lx / L_unit))) by lra.
  apply lt_IZR in Hc. lia.
Qed.

End Params.

(** X17: a box of zero volume makes [get_src_params_3D] fail with a
    division by zero, whatever the requested count. *)
Theorem get_src_params_3D_degenerate (Lx Ly Lz : R) (n_src : Z) :
  Lx * Ly * Lz = 0 ->
  get_src_params_3D Lx Ly Lz n_src = Raise ZeroDivisionError.
Proof.
  intros H. unfold get_src_params_3D.
  destruct (Z.eq_dec n_src 0) as [-> | Hn]; [now rewrite fdiv_zero |].
  rewrite fdiv_ok by now apply not_0_IZR. cbn [bind].
  rewrite H. replace (0 / IZR n_src) with 0 by (unfold Rdiv; ring).
  unfold fpow. destruct (Rlt_dec 0 0); [lra |].
  destruct (Req_dec_T 0 0); [| congruence].
  destruct (Rlt_dec 0 (1 / 3)); [| lra].
  cbn [bind]. now rewrite fdiv_zero.
Qed.

Lemma get_src_params_3D_degenerate_witness :
  get_src_params_3D 1 1 0 1000 = Raise ZeroDivisionError.
Proof.
  apply (get_src_params_3D_degenerate 1 1 0 1000). lra.
Defined.



Lemma counts_product_ge (Lx Ly Lz : R) (n_src : Z)
    (p : src_params) :
  0 < Lx -> 0 < Ly -> 0 < Lz -> (1 <= n_src)%Z ->
  get_src_params_3D Lx Ly Lz n_src = Ok p ->
  (n_src <= sp_nx p * sp_ny p * sp_nz p)%Z.
Proof.
  intros Hx Hy Hz Hn.
  rewrite (get_src_params_3D_pos_value Lx Ly Lz n_src Hx Hy Hz Hn).
  intros H. bind_inv H. inversion H; subst; clear H. cbn.
  pose proof (L_unit_pos Lx Ly Lz n_src) as HL.
  pose proof (L_unit_cubed Lx Ly Lz n_src Hx Hy Hz Hn) as Hc.
  pose proof (n_src_pos n_src Hn) as Hp.
  set (L := Rpower (Lx * Ly * Lz / IZR n_src) (1 / 3)) in *.
  pose proof (Zceil_bound (Lx / L)) as [_ Ux].
  pose proof (Zceil_bound (Ly / L)) as [_ Uy].
  pose proof (Zceil_bound (Lz / L)) as [_ Uz].
  unfold np_ceil. apply le_IZR. rewrite !mult_IZR.
  assert (Qx : 0 < Lx / L) by now apply Rdiv_lt_0_compat.
  assert (Qy : 0 < Ly / L) by now apply Rdiv_lt_0_compat.
  assert (Qz : 0 < Lz / L) by now apply Rdiv_lt_0_compat.
  assert (Hprod : Lx / L * (Ly / L) * (Lz / L) = IZR n_src).
  { replace (Lx / L * (Ly / L) * (Lz / L)) with (Lx * Ly * Lz / L ^ 3)
      by (field; lra).
    rewrite Hc. field. split; [lra |].
    assert (0 < Lx * Ly * Lz) by (repeat apply Rmult_lt_0_compat; lra). lra. }
  rewrite <- Hprod.
  apply Rmult_le_compat; try lra.
  - apply Rmult_le_pos; lra.
  - apply Rmult_le_compat; lra.
Qed.

(** X19: the realized count is never below the requested one.  For positive
    extents and a count of at least one, a run of [get_src_params_3D] that
    returns has [nx * ny * nz >= n_src]. *)
Theorem get_src_params_3D_count_ge (Lx Ly Lz : R) (n_src : Z)
    (p : src_params) :
  0 < Lx -> 0 < Ly -> 0 < Lz -> (1 <= n_src)%Z ->
  get_src_params_3D Lx Ly Lz n_src = Ok p ->
  (n_src <= sp_nx p * sp_ny p * sp_nz p)%Z.
Proof.
  intros Hx Hy Hz Hn Hp.
  exact (counts_product_ge Lx Ly Lz n_src p Hx Hy Hz Hn Hp).
Qed.

Lemma get_src_params_3D_count_ge_witness :
  (6 <= sp_nx (mk_src_params 2 3 1 2 4 0 2)
        * sp_ny (mk_src_params 2 3 1 2 4 0 2)
        * sp_nz (mk_src_params 2 3 1 2 4 0 2))%Z.
Proof.
  apply (get_src_params_3D_count_ge 2 3 1 6); try lra; try lia.
  exact ex_params.
Defined.

(** X20: along x the request is kept and the spacing is bracketed.  For
    positive extents and a count of at least one, a run that returns gives
    back [Lx] as realized length, and a spacing [ds] above the unit length
    [(V/n_src)^(1/3)] and not above [Lx]. *)
Theorem get_src_params_3D_spacing_bounds (Lx Ly Lz : R) (n_src : Z)
    (p : src_params) :
  0 < Lx -> 0 < Ly -> 0 < Lz -> (1 <= n_src)%Z ->
  get_src_params_3D Lx Ly Lz n_src = Ok p ->
  sp_Lx_n p = Lx
  /\ Rpower (Lx * Ly * Lz / IZR n_src) (1 / 3) < sp_ds p <= Lx.
Proof.
  intros Hx Hy Hz Hn Hp.
  destruct (get_src_params_3D_ds_pos _ _ _ _ _ Hx Hy Hz Hn Hp) as [H2 Hds].
  destruct (get_src_params_3D_inv _ _ _ _ _ Hp) as (Hd & Eds & ELx & _).
  assert (Hk : 1 <= IZR (sp_nx p - 1)) by (apply IZR_le; lia).
  split; [rewrite ELx, Eds; field; exact Hd |].
  revert Hp. rewrite (get_src_params_3D_pos_value Lx Ly Lz n_src Hx Hy Hz Hn).
  intros H. bind_inv H. inversion H; subst; clear H. cbn in *.
  pose proof (L_unit_pos Lx Ly Lz n_src) as HL.
  set (L := Rpower (Lx * Ly * Lz / IZR n_src) (1 / 3)) in *.
  pose proof (Zceil_bound (Lx / L)) as [Lo _]. unfold np_ceil in *.
  rewrite minus_IZR in *.
  set (k := IZR (Zceil (Lx / L)) - 1) in *.
  assert (HkL : k * L < Lx).
  { apply (Rmult_lt_compat_r L) in Lo; [| assumption].
    unfold Rdiv in Lo. rewrite Rmult_assoc, Rinv_l in Lo by lra. lra. }
  rewrite Eds. split.
  - apply (Rmult_lt_reg_r k); [lra |].
    unfold Rdiv. rewrite Rmult_assoc, Rinv_l by lra. lra.
  - apply (Rmult_le_reg_r k); [lra |].
    unfold Rdiv. rewrite Rmult_assoc, Rinv_l by lra. nra.
Qed.

Lemma get_src_params_3D_spacing_bounds_witness :
  sp_Lx_n (mk_src_params 2 3 1 2 4 0 2) = 2
  /\ Rpower (2 * 3 * 1 / IZR 6) (1 / 3)
     < sp_ds (mk_src_params 2 3 1 2 4 0 2) <= 2.
Proof.
  apply (get_src_params_3D_spacing_bounds 2 3 1 6); try lra; try lia.
  exact ex_params.
Defined.

(** X21: a cube gets a cubic grid.  For a cube of side [L > 0] and a count
    of at least two, [get_src_params_3D] returns the same number of sources
    along the three axes, at least two, enough of them for the count, and
    the three realized lengths are [L]. *)
Theorem get_src_params_3D_cube (L : R) (n_src : Z) :
  0 < L -> (2 <= n_src)%Z ->
  exists p,
    get_src_params_3D L L L n_src = Ok p
    /\ sp_ny p = sp_nx p /\ sp_nz p = sp_nx p
    /\ (2 <= sp_nx p)%Z
    /\ (n_src <= sp_nx p * sp_nx p * sp_nx p)%Z
    /\ sp_ds p = L / IZR (sp_nx p - 1)
    /\ sp_Lx_n p = L /\ sp_Ly_n p = L /\ sp_Lz_n p = L.
Proof.
  intros HL Hn.
  assert (Hn1 : (1 <= n_src)%Z) by lia.
  assert (Hnr : 2 <= IZR n_src) by (apply IZR_le; lia).
  assert (Hex : exists p, get_src_params_3D L L L n_src = Ok p
                          /\ sp_ny p = sp_nx p /\ sp_nz p = sp_nx p).
  { rewrite (get_src_params_3D_pos_value L L L n_src HL HL HL Hn1).
    assert (Hlt : Rpower (L * L * L / IZR n_src) (1 / 3) < L)
      by (apply (L_unit_lt_Lx L L L n_src HL HL HL Hn1); nra).
    pose proof (np_ceil_x_two L L L n_src Hlt) as H2.
    rewrite fdiv_ok by (apply not_0_IZR; lia). cbn [bind].
    eexists. split; [reflexivity |]. now split. }
  destruct Hex as (p & Hp & Ey & Ez). exists p.
  destruct (get_src_params_3D_ds_pos _ _ _ _ _ HL HL HL Hn1 Hp) as [H2 _].
  destruct (get_src_params_3D_inv _ _ _ _ _ Hp) as (Hd & Eds & ELx & ELy & ELz).
  pose proof (counts_product_ge _ _ _ _ _ HL HL HL Hn1 Hp) as Hc.
  rewrite Ey, Ez in Hc. rewrite Ey in ELy. rewrite Ez in ELz.
  repeat split; try assumption.
  - rewrite ELx, Eds. field. exact Hd.
  - rewrite ELy, Eds. field. exact Hd.
  - rewrite ELz, Eds. field. exact Hd.
Qed.

Lemma get_src_params_3D_cube_witness :
  exists p,
    get_src_params_3D 1 1 1 1000 = Ok p
    /\ sp_ny p = sp_nx p /\ sp_nz p = sp_nx p
    /\ (2 <= sp_nx p)%Z
    /\ (1000 <= sp_nx p * sp_nx p * sp_nx p)%Z
    /\ sp_ds p = 1 / IZR (sp_nx p - 1)
    /\ sp_Lx_n p = 1 /\ sp_Ly_n p = 1 /\ sp_Lz_n p = 1.
Proof.
  apply (get_src_params_3D_cube 1 1000); [lra | lia].
Defined.

Lemma np_round_int (k : Z) : np_round (IZR k) = k.
Proof.
  unfold np_round, np_floor. rewrite ZfloorZ.
  destruct (Rlt_dec _ _) as [_ | H]; [reflexivity | lra].
Qed.

Lemma np_linspace_length (start stop : R) (num : Z) (l : list R) :
  np_linspace start stop num = Ok l -> length l = Z.to_nat num.
Proof.
  unfold np_linspace. destruct (num <? 0)%Z; [discriminate |].
  destruct (num <=? 1)%Z; intros H; inversion H; subst; clear H;
    unfold np_arange; now rewrite !length_map, length_seq.
Qed.

(** X22: an empty array of positions makes [make_src_3D] fail with a value
    error, whichever of the three arrays it is. *)
Theorem make_src_3D_empty_input (X Y Zs : list R) (n_src : Z)
    (ext_x ext_y ext_z R_init : R) :
  X = [] \/ Y = [] \/ Zs = [] ->
  make_src_3D X Y Zs n_src ext_x ext_y ext_z R_init = Raise ValueError.
Proof.
  intros H. unfold make_src_3D, make_src_axes.
  destruct X as [| x X']; [reflexivity |].
  destruct Y as [| y Y']; [reflexivity |].
  destruct Zs as [| z Z']; [reflexivity |].
  destruct H as [H | [H | H]]; discriminate H.
Qed.

Lemma make_src_3D_empty_input_witness :
  make_src_3D [0; 1] [] [0; 1] 1000 0 0 0 0.23 = Raise ValueError.
Proof.
  apply (make_src_3D_empty_input [0; 1] [] [0; 1] 1000 0 0 0 0.23).
  right. now left.
Defined.

(** X23: positions that leave the padded box without volume make
    [make_src_3D] fail with a division by zero: a single electrode without
    margins, or a planar array without a margin across its plane. *)
Theorem make_src_3D_flat_box (X Y Zs : list R) (n_src : Z)
    (ext_x ext_y ext_z R_init max_X min_X max_Y min_Y max_Z min_Z : R) :
  np_max X = Ok max_X -> np_min X = Ok min_X ->
  np_max Y = Ok max_Y -> np_min Y = Ok min_Y ->
  np_max Zs = Ok max_Z -> np_min Zs = Ok min_Z ->
  (max_X - min_X + 2 * ext_x) * (max_Y - min_Y + 2 * ext_y)
  * (max_Z - min_Z + 2 * ext_z) = 0 ->
  make_src_3D X Y Zs n_src ext_x ext_y ext_z R_init
  = Raise ZeroDivisionError.
Proof.
  intros H1 H2 H3 H4 H5 H6 HV. unfold make_src_3D, make_src_axes.
  rewrite H1, H2, H3, H4, H5, H6. cbn [bind].
  assert (Hp : get_src_params_3D (max_X - min_X + 2 * ext_x)
                 (max_Y - min_Y + 2 * ext_y) (max_Z - min_Z + 2 * ext_z) n_src
               = Raise ZeroDivisionError).
  { unfold get_src_params_3D.
    destruct (Z.eq_dec n_src 0) as [-> | Hn]; [now rewrite fdiv_zero |].
    rewrite fdiv_ok by now apply not_0_IZR. cbn [bind].
    rewrite HV. replace (0 / IZR n_src) with 0 by (unfold Rdiv; ring).
    unfold fpow. destruct (Rlt_dec 0 0); [lra |].
    destruct (Req_dec_T 0 0); [| congruence].
    destruct (Rlt_dec 0 (1 / 3)); [| lra].
    cbn [bind]. now rewrite fdiv_zero. }
  now rewrite Hp.
Qed.

Lemma make_src_3D_flat_box_witness :
  make_src_3D [0; 1] [0; 1] [0; 0] 1000 0 0 0 0.23 = Raise ZeroDivisionError.
Proof.
  apply (make_src_3D_flat_box [0; 1] [0; 1] [0; 0] 1000 0 0 0 0.23
           (Rmax 0 1) (Rmin 0 1) (Rmax 0 1) (Rmin 0 1) (Rmax 0 0) (Rmin 0 0));
    try reflexivity.
  rewrite (Rmax_left 0 0), (Rmin_left 0 0) by lra. ring.
Defined.

(** X24: the snap moves the radius by at most half a grid spacing, and a
    non-negative request on a grid of positive spacing stays non-negative. *)
Theorem make_src_3D_snap_error (X Y Zs : list R) (n_src : Z)
    (ext_x ext_y ext_z R_init : R) (ax : src_axes) :
  make_src_axes X Y Zs n_src ext_x ext_y ext_z = Ok ax ->
  exists g,
    make_src_3D X Y Zs n_src ext_x ext_y ext_z R_init = Ok g
    /\ Rabs (R_src g - R_init) <= Rabs (ax_ds ax) / 2
    /\ (0 <= R_init -> 0 < ax_ds ax -> 0 <= R_src g).
Proof.
  intros Hax.
  pose proof (make_src_axes_ds_neq _ _ _ _ _ _ _ _ Hax) as Hd.
  rewrite (make_src_3D_of_axes _ _ _ _ _ _ _ _ _ Hax Hd).
  eexists. split; [reflexivity |]. cbn [R_src].
  set (ds := ax_ds ax) in *. set (q := R_init / ds).
  pose proof (np_round_half q) as Hh. split.
  - replace (IZR (np_round q) * ds - R_init) with ((IZR (np_round q) - q) * ds)
      by (unfold q; field; exact Hd).
    rewrite Rabs_mult. pose proof (Rabs_pos ds). nra.
  - intros Hr Hp.
    assert (Hq : 0 <= q) by (unfold q; apply Rmult_le_pos;
      [lra | apply Rlt_le, Rinv_0_lt_compat; lra]).
    apply Rabs_le_inv in Hh.
    assert (Hk : -1 < IZR (np_round q)) by lra.
    apply lt_IZR in Hk.
    assert (Hk' : 0 <= IZR (np_round q)) by (apply IZR_le; lia).
    apply Rmult_le_pos; lra.
Qed.

Lemma make_src_3D_snap_error_witness :
  make_src_axes ex_X ex_Y ex_Z 6 0 0 0
  = Ok (mk_src_axes [0; 2] [-1 / 2; 3 / 2; 7 / 2] [1 / 2] 2)
  /\ exists g,
       make_src_3D ex_X ex_Y ex_Z 6 0 0 0 3 = Ok g
       /\ Rabs (R_src g - 3) <= Rabs 2 / 2
       /\ (0 <= 3 -> 0 < 2 -> 0 <= R_src g).
Proof.
  split; [exact ex_axes |].
  exact (make_src_3D_snap_error ex_X ex_Y ex_Z 6 0 0 0 3 _ ex_axes).
Defined.

(** X25: snapping is idempotent.  Asking [make_src_3D] for the radius it
    returned gives the same grid and the same radius again. *)
Theorem make_src_3D_snap_idempotent (X Y Zs : list R) (n_src : Z)
    (ext_x ext_y ext_z R_init : R) (g : src_grid) :
  make_src_3D X Y Zs n_src ext_x ext_y ext_z R_init = Ok g ->
  make_src_3D X Y Zs n_src ext_x ext_y ext_z (R_src g) = Ok g.
Proof.
  intros H.
  destruct (make_src_3D_inv _ _ _ _ _ _ _ _ _ H) as (ax & Hax & Hd & Hm & HR).
  rewrite (make_src_3D_of_axes _ _ _ _ _ _ _ _ _ Hax Hd).
  rewrite <- Hm. cbn [fst snd].
  replace (R_src g / ax_ds ax) with (IZR (np_round (R_init / ax_ds ax)))
    by (rewrite HR; field; exact Hd).
  rewrite np_round_int, <- HR. now destruct g.
Qed.

Lemma make_src_3D_snap_idempotent_witness :
  make_src_3D ex_X ex_Y ex_Z 6 0 0 0 3
  = Ok (ex_grid (IZR (np_round (3 / 2)) * 2))
  /\ make_src_3D ex_X ex_Y ex_Z 6 0 0 0
       (R_src (ex_grid (IZR (np_round (3 / 2)) * 2)))
     = Ok (ex_grid (IZR (np_round (3 / 2)) * 2)).
Proof.
  split; [apply ex_make_src |].
  apply (make_src_3D_snap_idempotent ex_X ex_Y ex_Z 6 0 0 0 3).
  apply ex_make_src.
Defined.

Lemma np_linspace_first_last (start stop : R) (num : Z) (l : list R) :
  np_linspace start stop num = Ok l -> (1 <= num)%Z ->
  nth_error l 0 = Some start
  /\ nth_error l (length l - 1)
     = Some (if (num =? 1)%Z then start else stop).
Proof.
  intros H Hn. destruct (Z.eqb_spec num 1) as [-> | Hne].
  - unfold np_linspace in H. cbn in H. inversion H; subst. now split.
  - rewrite (np_linspace_length _ _ _ _ H).
    replace (Z.to_nat num - 1)%nat with (Z.to_nat (num - 1)) by lia.
    apply np_linspace_ends; [lia | exact H].
Qed.

Lemma row_size (f : R -> list R) (n : nat) (lx : list R) :
  (forall a, length (f a) = n) ->
  list_sum (map (@length R) (map f lx)) = (length lx * n)%nat.
Proof.
  intros Hf. induction lx as [| a lx' IH]; [reflexivity |].
  change (map (@length R) (map f (a :: lx')))
    with (length (f a) :: map (@length R) (map f lx')).
  change (list_sum (length (f a) :: map (@length R) (map f lx')))
    with (length (f a) + list_sum (map (@length R) (map f lx')))%nat.
  rewrite IH, Hf. reflexivity.
Qed.

Lemma rows_size (f : R -> R -> list R) (n : nat) (lx ly : list R) :
  (forall b a, length (f b a) = n) ->
  np_size (map (fun b => map (f b) lx) ly)
  = (length ly * (length lx * n))%nat.
Proof.
  intros Hf. unfold np_size. induction ly as [| b ly' IH]; [reflexivity |].
  cbn [map length].
  change (list_sum (?a :: ?l)) with (a + list_sum l)%nat.
  rewrite IH, (row_size (f b) n lx) by apply Hf. reflexivity.
Qed.

Lemma meshgrid_size (lx ly lz : list R) :
  np_size (fst (fst (np_meshgrid lx ly lz)))
  = (length ly * (length lx * length lz))%nat
  /\ np_size (snd (fst (np_meshgrid lx ly lz)))
     = (length ly * (length lx * length lz))%nat
  /\ np_size (snd (np_meshgrid lx ly lz))
     = (length ly * (length lx * length lz))%nat.
Proof.
  unfold np_meshgrid. cbn [fst snd]. repeat split.
  - apply (rows_size (fun _ xi => map (fun _ => xi) lz)).
    intros. apply length_map.
  - apply (rows_size (fun yj _ => map (fun _ => yj) lz)).
    intros. apply length_map.
  - apply (rows_size (fun _ _ => lz)). reflexivity.
Qed.

Section Extent.
Variables X Y Zs : list R.
Variable n_src : Z.
Variables ext_x ext_y ext_z : R.
Variables max_X min_X max_Y min_Y max_Z min_Z : R.
Hypothesis HmaxX : np_max X = Ok max_X.
Hypothesis HminX : np_min X = Ok min_X.
Hypothesis HmaxY : np_max Y = Ok max_Y.
Hypothesis HminY : np_min Y = Ok min_Y.
Hypothesis HmaxZ : np_max Zs = Ok max_Z.
Hypothesis HminZ : np_min Zs = Ok min_Z.

Lemma make_src_axes_inv_with (ax : src_axes) :
  make_src_axes X Y Zs n_src ext_x ext_y ext_z = Ok ax ->
  exists p,
    get_src_params_3D (max_X - min_X + 2 * ext_x)
      (max_Y - min_Y + 2 * ext_y) (max_Z - min_Z + 2 * ext_z) n_src = Ok p
    /\ np_linspace (min_X - (sp_Lx_n p - (max_X - min_X)) / 2)
         (max_X + (sp_Lx_n p - (max_X - min_X)) / 2) (sp_nx p)
       = Ok (lin_x ax)
    /\ np_linspace (min_Y - (sp_Ly_n p - (max_Y - min_Y)) / 2)
         (max_Y + (sp_Ly_n p - (max_Y - min_Y)) / 2) (sp_ny p)
       = Ok (lin_y ax)
    /\ np_linspace (min_Z - (sp_Lz_n p - (max_Z - min_Z)) / 2)
         (max_Z + (sp_Lz_n p - (max_Z - min_Z)) / 2) (sp_nz p)
       = Ok (lin_z ax)
    /\ ax_ds ax = sp_ds p.
Proof.
  intros H.
  destruct (make_src_axes_inv _ _ _ _ _ _ _ ax H)
    as (aX & bX & aY & bY & aZ & bZ & p & H1 & H2 & H3 & H4 & H5 & H6
        & Hp & Hx & Hy & Hz & Hds).
  assert (aX = max_X) by congruence. assert (bX = min_X) by congruence.
  assert (aY = max_Y) by congruence. assert (bY = min_Y) by congruence.
  assert (aZ = max_Z) by congruence. assert (bZ = min_Z) by congruence.
  subst. exists p. repeat split; assumption.
Qed.

(** A non-empty sequence of [np.linspace] over an interval centered on the
    middle of [lo, hi], of zero length when it has one sample, has its
    first and last samples symmetric about that middle. *)
Lemma centered_axis (lo hi Ln e : R) (n : Z) (l : list R) (a b : R) :
  e = (Ln - (hi - lo)) / 2 ->
  (n = 1%Z -> Ln = 0) ->
  np_linspace (lo - e) (hi + e) n = Ok l ->
  nth_error l 0 = Some a -> nth_error l (length l - 1) = Some b ->
  a + b = lo + hi.
Proof.
  intros He H1 Hl Ha Hb.
  assert (Hn : (1 <= n)%Z).
  { apply np_linspace_length in Hl.
    destruct l; [discriminate Ha |]. cbn [length] in Hl. lia. }
  destruct (np_linspace_first_last _ _ _ _ Hl Hn) as [Fa Fb].
  rewrite Fa in Ha. rewrite Fb in Hb.
  inversion Ha; subst a. destruct (Z.eqb_spec n 1) as [E | E].
  - inversion Hb; subst b. rewrite (H1 E) in He. lra.
  - inversion Hb; subst b. lra.
Qed.
End Extent.

(** X26: the grid is centered on the bounding box of the positions.  On each
    axis the first and the last source coordinate are symmetric about the
    middle of the positions along that axis; a single source sits on the
    middle. *)
Theorem make_src_axes_centered (X Y Zs : list R) (n_src : Z)
    (ext_x ext_y ext_z max_X min_X max_Y min_Y max_Z min_Z : R)
    (ax : src_axes) :
  np_max X = Ok max_X -> np_min X = Ok min_X ->
  np_max Y = Ok max_Y -> np_min Y = Ok min_Y ->
  np_max Zs = Ok max_Z -> np_min Zs = Ok min_Z ->
  make_src_axes X Y Zs n_src ext_x ext_y ext_z = Ok ax ->
  forall a b : R,
    (nth_error (lin_x ax) 0 = Some a ->
     nth_error (lin_x ax) (length (lin_x ax) - 1) = Some b ->
     a + b = min_X + max_X)
    /\ (nth_error (lin_y ax) 0 = Some a ->
        nth_error (lin_y ax) (length (lin_y ax) - 1) = Some b ->
        a + b = min_Y + max_Y)
    /\ (nth_error (lin_z ax) 0 = Some a ->
        nth_error (lin_z ax) (length (lin_z ax) - 1) = Some b ->
        a + b = min_Z + max_Z).
Proof.
  intros H1 H2 H3 H4 H5 H6 Hax a b.
  destruct (make_src_axes_inv_with X Y Zs n_src ext_x ext_y ext_z
              _ _ _ _ _ _ H1 H2 H3 H4 H5 H6 ax Hax)
    as (p & Hp & Hx & Hy & Hz & _).
  destruct (get_src_params_3D_inv _ _ _ _ _ Hp) as (_ & _ & Ex & Ey & Ez).
  repeat split; intros Ha Hb.
  - eapply (centered_axis min_X max_X (sp_Lx_n p)); try eassumption;
      [reflexivity |].
    intros E. rewrite Ex, E. cbn. ring.
  - eapply (centered_axis min_Y max_Y (sp_Ly_n p)); try eassumption;
      [reflexivity |].
    intros E. rewrite Ey, E. cbn. ring.
  - eapply (centered_axis min_Z max_Z (sp_Lz_n p)); try eassumption;
      [reflexivity |].
    intros E. rewrite Ez, E. cbn. ring.
Qed.

Lemma make_src_axes_centered_witness :
  0 + 2 = Rmin 0 2 + Rmax 0 2
  /\ -1 / 2 + 7 / 2 = Rmin 0 3 + Rmax 0 3
  /\ 1 / 2 + 1 / 2 = Rmin 0 1 + Rmax 0 1.
Proof.
  pose proof (make_src_axes_centered ex_X ex_Y ex_Z 6 0 0 0
           (Rmax 0 2) (Rmin 0 2) (Rmax 0 3) (Rmin 0 3) (Rmax 0 1) (Rmin 0 1)
           _ eq_refl eq_refl eq_refl eq_refl eq_refl eq_refl ex_axes) as H.
  destruct (H 0 2) as (Hx & _ & _).
  destruct (H (-1 / 2) (7 / 2)) as (_ & Hy & _).
  destruct (H (1 / 2) (1 / 2)) as (_ & _ & Hz).
  split; [apply Hx; reflexivity |].
  split; [apply Hy; reflexivity | apply Hz; reflexivity].
Defined.

(** X27: along x the grid spans the padded interval exactly.  When the grid
    has at least two sources along x, the first one is at
    [min(X) - ext_x] and the last one at [max(X) + ext_x]. *)
Theorem make_src_axes_x_span (X Y Zs : list R) (n_src : Z)
    (ext_x ext_y ext_z max_X min_X : R) (ax : src_axes) :
  np_max X = Ok max_X -> np_min X = Ok min_X ->
  make_src_axes X Y Zs n_src ext_x ext_y ext_z = Ok ax ->
  (2 <= length (lin_x ax))%nat ->
  nth_error (lin_x ax) 0 = Some (min_X - ext_x)
  /\ nth_error (lin_x ax) (length (lin_x ax) - 1) = Some (max_X + ext_x).
Proof.
  intros H1 H2 Hax Hlen.
  destruct (make_src_axes_inv _ _ _ _ _ _ _ ax Hax)
    as (aX & bX & aY & bY & aZ & bZ & p & E1 & E2 & _ & _ & _ & _
        & Hp & Hx & _ & _ & _).
  assert (aX = max_X) by congruence. assert (bX = min_X) by congruence.
  subst aX bX.
  destruct (get_src_params_3D_inv _ _ _ _ _ Hp) as (Hd & Eds & ELx & _).
  assert (HL : sp_Lx_n p = max_X - min_X + 2 * ext_x)
    by (rewrite ELx, Eds; field; exact Hd).
  pose proof (np_linspace_length _ _ _ _ Hx) as Hn.
  destruct (np_linspace_first_last _ _ _ _ Hx) as [Fa Fb]; [lia |].
  destruct (Z.eqb_spec (sp_nx p) 1) as [E | _]; [lia |].
  rewrite Fa, Fb, HL. split; f_equal; lra.
Qed.

Lemma make_src_axes_x_span_witness :
  nth_error [0; 2] 0 = Some (Rmin 0 2 - 0)
  /\ nth_error [0; 2] (2 - 1) = Some (Rmax 0 2 + 0).
Proof.
  apply (make_src_axes_x_span ex_X ex_Y ex_Z 6 0 0 0 (Rmax 0 2) (Rmin 0 2)
           _ eq_refl eq_refl ex_axes).
  cbn. lia.
Defined.

(** X28: the grid has at least as many nodes as were asked for.  When the
    padded extents are positive and the requested count is at least one,
    the three arrays that [make_src_3D] returns have the same number of
    elements, and that number is at least [n_src]. *)
Theorem make_src_3D_size (X Y Zs : list R) (n_src : Z)
    (ext_x ext_y ext_z R_init max_X min_X max_Y min_Y max_Z min_Z : R)
    (g : src_grid) :
  np_max X = Ok max_X -> np_min X = Ok min_X ->
  np_max Y = Ok max_Y -> np_min Y = Ok min_Y ->
  np_max Zs = Ok max_Z -> np_min Zs = Ok min_Z ->
  0 < max_X - min_X + 2 * ext_x ->
  0 < max_Y - min_Y + 2 * ext_y ->
  0 < max_Z - min_Z + 2 * ext_z ->
  (1 <= n_src)%Z ->
  make_src_3D X Y Zs n_src ext_x ext_y ext_z R_init = Ok g ->
  np_size (Y_src g) = np_size (X_src g)
  /\ np_size (Z_src g) = np_size (X_src g)
  /\ (n_src <= Z.of_nat (np_size (X_src g)))%Z.
Proof.
  intros H1 H2 H3 H4 H5 H6 Px Py Pz Hn Hg.
  destruct (make_src_3D_inv _ _ _ _ _ _ _ _ _ Hg) as (ax & Hax & _ & Hm & _).
  destruct (make_src_axes_inv_with X Y Zs n_src ext_x ext_y ext_z
              _ _ _ _ _ _ H1 H2 H3 H4 H5 H6 ax Hax)
    as (p & Hp & Hx & Hy & Hz & _).
  destruct (meshgrid_size (lin_x ax) (lin_y ax) (lin_z ax)) as (SX & SY & SZ).
  rewrite <- Hm in SX, SY, SZ. cbn [fst snd] in SX, SY, SZ.
  rewrite SX, SY, SZ. split; [reflexivity |]. split; [reflexivity |].
  apply np_linspace_length in Hx, Hy, Hz. rewrite Hx, Hy, Hz.
  destruct (get_src_params_3D_counts _ _ _ _ _ Px Py Pz Hn Hp)
    as (Cx & Cy & Cz).
  pose proof (counts_product_ge _ _ _ _ _ Px Py Pz Hn Hp) as Hc.
  rewrite !Nat2Z.inj_mul, !Z2Nat.id by lia. lia.
Qed.

Lemma make_src_3D_size_witness :
  np_size (Y_src (ex_grid (IZR (np_round (0.23 / 2)) * 2)))
  = np_size (X_src (ex_grid (IZR (np_round (0.23 / 2)) * 2)))
  /\ np_size (Z_src (ex_grid (IZR (np_round (0.23 / 2)) * 2)))
     = np_size (X_src (ex_grid (IZR (np_round (0.23 / 2)) * 2)))
  /\ (6 <= Z.of_nat (np_size (X_src (ex_grid (IZR (np_round (0.23 / 2)) * 2)))))%Z.
Proof.
  apply (make_src_3D_size ex_X ex_Y ex_Z 6 0 0 0 0.23
           (Rmax 0 2) (Rmin 0 2) (Rmax 0 3) (Rmin 0 3) (Rmax 0 1) (Rmin 0 1));
    try reflexivity; try lia.
  - rewrite Rmax_right, Rmin_left by lra. lra.
  - rewrite Rmax_right, Rmin_left by lra. lra.
  - rewrite Rmax_right, Rmin_left by lra. lra.
  - apply ex_make_src.
Defined.
